(** * VictoriaLogs: OpenTelemetry ingestion, cluster test harness and
      query-response tooling, embedded in Rocq.

    Sources:
    - app/vlinsert/opentelemetry/opentelemetry.go (RequestHandler,
      handleProtobuf, pushProtobufRequest);
    - apptest/model.go (NewLogsQLQueryResponse);
    - apptest/vlcluster.go (MustStartVlcluster);
    - apptest/vlsingle.go, apptest/app.go (MustStartVlsingle,
      mustStartVlnode, setDefaultFlags);
    - apptest/tests/vlcluster_test.go (TestVlclusterIngestAndQuery). *)

From Stdlib Require Import ZArith List String Ascii Sorted Permutation Lia.
From Stdlib Require Mergesort.
From stdpp Require Import base gmap sets list strings.

Open Scope string_scope.
Open Scope list_scope.

(* ================================================================== *)
(** ** Go effects: a trace-and-panic monad *)

(** Each Go call that talks to a collaborator (HTTP response writer, the
    log-message processor, the storage gate) is recorded as an event; a
    Go runtime panic aborts the computation. Go [error] results are
    ordinary values. *)
Inductive Outcome (A : Type) : Type :=
| Done (a : A)
| Panic (msg : string).
Arguments Done {A} a.
Arguments Panic {A} msg.

Section Monad.
Context {Ev : Type}.

Definition M (A : Type) : Type := (list Ev * Outcome A)%type.

Definition mret {A} (a : A) : M A := ([], Done a).

Definition mbind {A B} (m : M A) (k : A -> M B) : M B :=
  match m with
  | (t, Panic msg) => (t, Panic msg)
  | (t, Done a) => let '(t', r) := k a in (t ++ t', r)
  end.

Definition emit (e : Ev) : M unit := ([e], Done tt).

Definition mpanic {A} (msg : string) : M A := ([], Panic msg).

(** [for _, x := range xs { f(x) }] *)
Fixpoint mfor {A} (f : A -> M unit) (xs : list A) : M unit :=
  match xs with
  | [] => mret tt
  | x :: xs' => mbind (f x) (fun _ => mfor f xs')
  end.
End Monad.

Notation "'let!' x := m 'in' k" := (mbind m (fun x => k))
  (at level 200, x binder, m at level 100, k at level 200).

(* ================================================================== *)
(** ** Data model of the ingestion path *)

(** [logstorage.Field] *)
Record Field := mkField { Name : string; Value : string }.

#[global] Instance Field_eq_dec : EqDecision Field.
Proof. solve_decision. Defined.

(** The part of [insertutil.CommonParams] read by the OpenTelemetry
    handler. *)
Record CommonParams := mkCommonParams {
  StreamFields : list string;
  MsgFields : list string
}.

(** Errors, structured instead of formatted. *)
Inductive Error :=
| ErrText (msg : string)
| ErrWrap (context : string) (inner : Error)
| ErrDecodeRecord (recordIndex : nat).

(** Calls made by the OpenTelemetry handler on its collaborators. *)
Inductive Event :=
| EvRequestsProtobufTotalInc
| EvCanWriteData
| EvReadBody
| EvNewLogMessageProcessor
| EvAddRow (timestamp : Z) (fields : list Field) (streamFields : list Field)
| EvMustClose
| EvErrorsTotalInc
| EvHTTPError (err : Error)
| EvRequestDurationUpdate.

(** Go slicing [xs[k:]] and [xs[:k]]: a panic when [k > len(xs)]. *)
Definition slice_from {A} (xs : list A) (k : nat) : @M Event (list A) :=
  if decide (k <= length xs) then mret (drop k xs)
  else mpanic "runtime error: slice bounds out of range".

Definition slice_to {A} (xs : list A) (k : nat) : @M Event (list A) :=
  if decide (k <= length xs) then mret (take k xs)
  else mpanic "runtime error: slice bounds out of range".

(* ================================================================== *)
(** ** Collaborators of this repository that are not under src/ *)

(** Modelled from the spec: [logstorage.RenameField] (lib/logstorage) is
    not under src/. Spec 4.3 step 1: field(s) matching [msgFieldNames]
    are renamed to the reserved name. *)
Definition RenameField (fields : list Field) (oldNames : list string)
    (newName : string) : list Field :=
  map (fun f => if decide (Name f ∈ oldNames) then mkField newName (Value f) else f)
    fields.

(** Modelled from the spec: [insertutil.LogMessageProcessor.AddRow]
    (app/vlinsert/insertutil) is not under src/. Spec 4.3 step 1 and
    property 2: a row without a [_msg] field is stored with an empty
    [_msg]. The row handed to storage is computed from an [EvAddRow]
    event. *)
Record StoredRow := mkStoredRow {
  rowTimestamp : Z;
  rowFields : list Field;
  rowStreamFields : list Field
}.

Definition ensureMsgField (fields : list Field) : list Field :=
  if decide (Exists (fun f => Name f = "_msg") fields) then fields
  else fields ++ [mkField "_msg" EmptyString].

Definition storedRowOf (e : Event) : option StoredRow :=
  match e with
  | EvAddRow ts fields sfs => Some (mkStoredRow ts (ensureMsgField fields) sfs)
  | _ => None
  end.

(** The rows a request hands to storage: the processor buffers every added
    row and flushes it on [MustClose]. *)
Definition rowsStored (tr : list Event) : list StoredRow :=
  omap storedRowOf tr.

(** Modelled from the spec: the OTLP [LogsData] envelope and
    [decodeLogsData] (app/vlinsert/opentelemetry/pb.go) are not under src/.
    Spec 4.2: resource -> log-record hierarchy; each leaf record yields the
    resource attributes, then the record's attributes, then its body as the
    message field; the resource attributes are the leading stream fields.
    A decoding failure aborts the whole request with no partial commit,
    naming the record index: the payload is decoded completely before any
    row is emitted. *)
Inductive LogRecord :=
| LogRecordOK (timestamp : Z) (attributes : list Field) (body : option string)
| LogRecordCorrupt.

Record ResourceLogs := mkResourceLogs {
  resourceAttributes : list Field;
  logRecords : list LogRecord
}.

Definition LogsData := list ResourceLogs.

Definition DecodedRow : Type := (Z * list Field * nat)%type.

Fixpoint decodeLogRecords (idx : nat) (res : list Field) (lrs : list LogRecord)
    : list DecodedRow + Error :=
  match lrs with
  | [] => inl []
  | LogRecordOK ts attrs body :: lrs' =>
      let fields := res ++ attrs ++
        match body with Some b => [mkField "_msg" b] | None => [] end in
      match decodeLogRecords (S idx) res lrs' with
      | inl rows => inl ((ts, fields, length res) :: rows)
      | inr e => inr e
      end
  | LogRecordCorrupt :: _ => inr (ErrDecodeRecord idx)
  end.

Fixpoint decodeResourceLogs (idx : nat) (rls : LogsData) : list DecodedRow + Error :=
  match rls with
  | [] => inl []
  | rl :: rls' =>
      match decodeLogRecords idx (resourceAttributes rl) (logRecords rl) with
      | inr e => inr e
      | inl rows =>
          match decodeResourceLogs (idx + length (logRecords rl)) rls' with
          | inl rows' => inl (rows ++ rows')
          | inr e => inr e
          end
      end
  end.

Definition decodeLogsData (data : LogsData)
    (pushLogs : Z -> list Field -> nat -> @M Event unit) : @M Event (option Error) :=
  match decodeResourceLogs 0 data with
  | inr e => mret (Some e)
  | inl rows =>
      let! _ := mfor (fun '(ts, fields, k) => pushLogs ts fields k) rows in
      mret None
  end.

(* ================================================================== *)
(** ** opentelemetry.go *)

(** The [pushLogs] closure of [pushProtobufRequest]. [RenameField] works
    in place on [fields[streamFieldsLen:]], which shares its backing array
    with [fields]: the rename is visible in [fields]. *)
Definition pushLogs (msgFields : list string) (useDefaultStreamFields : bool)
    (timestamp : Z) (fields : list Field) (streamFieldsLen : nat) : @M Event unit :=
  let! tail := slice_from fields streamFieldsLen in
  let fields := take streamFieldsLen fields ++ RenameField tail msgFields "_msg" in
  let! streamFields := (if useDefaultStreamFields then slice_to fields streamFieldsLen
                        else mret []) in
  emit (EvAddRow timestamp fields streamFields).

Definition pushProtobufRequest (data : LogsData) (msgFields : list string)
    (useDefaultStreamFields : bool) : @M Event (option Error) :=
  let! err := decodeLogsData data (pushLogs msgFields useDefaultStreamFields) in
  match err with
  | Some e =>
      let! _ := emit EvErrorsTotalInc in
      mret (Some (ErrWrap "cannot decode LogsData request" e))
  | None => mret None
  end.

(** An HTTP request as the handler sees it. *)
Record Request {Body : Type} := mkRequest {
  ContentType : string;
  ContentEncoding : string;
  ReqBody : Body
}.
Arguments Request : clear implicits.
Arguments mkRequest {Body} _ _ _.

Definition maxRequestSize : nat := 64 * 1024 * 1024.

Section Handler.
(** The request body before decompression. *)
Variable Body : Type.
(** [insertutil.GetCommonParams]: parses the request's query args. *)
Variable GetCommonParams : Request Body -> CommonParams + Error.
(** [insertutil.IsJSONContentType]. *)
Variable IsJSONContentType : string -> bool.
(** [insertutil.CanWriteData()]: the storage's "cannot accept writes"
    state at the time of the request. *)
Variable CanWriteData : option Error.
(** [protoparserutil.ReadUncompressedData]: reads the whole body up to
    [maxSize] bytes and inflates it. *)
Variable uncompress : Body -> string -> nat -> LogsData + Error.

Definition ReadUncompressedData (body : Body) (encoding : string) (maxSize : nat)
    (callback : LogsData -> @M Event (option Error)) : @M Event (option Error) :=
  let! _ := emit EvReadBody in
  match uncompress body encoding maxSize with
  | inr e => mret (Some e)
  | inl data => callback data
  end.

Definition handleProtobuf (r : Request Body) : @M Event unit :=
  let! _ := emit EvRequestsProtobufTotalInc in
  match GetCommonParams r with
  | inr err => emit (EvHTTPError (ErrWrap "cannot parse common params from request" err))
  | inl cp =>
      let! _ := emit EvCanWriteData in
      match CanWriteData with
      | Some err => emit (EvHTTPError err)
      | None =>
          let! err := ReadUncompressedData (ReqBody r) (ContentEncoding r) maxRequestSize
                   (fun data =>
                      let! _ := emit EvNewLogMessageProcessor in
                      let useDefaultStreamFields :=
                        bool_decide (length (StreamFields cp) = 0) in
                      let! err := pushProtobufRequest data (MsgFields cp) useDefaultStreamFields in
                      let! _ := emit EvMustClose in
                      mret err) in
          match err with
          | Some e => emit (EvHTTPError (ErrWrap "cannot read OpenTelemetry protocol data" e))
          | None => emit EvRequestDurationUpdate
          end
      end
  end.

Definition jsonUnsupportedMsg : string :=
  "json encoding isn't supported for opentelemetry format. Use protobuf encoding".

(** Returns whether the path was handled. *)
Definition RequestHandler (path : string) (r : Request Body) : @M Event bool :=
  if decide (path = "/insert/opentelemetry/v1/logs") then
    if IsJSONContentType (ContentType r) then
      let! _ := emit (EvHTTPError (ErrText jsonUnsupportedMsg)) in mret true
    else
      let! _ := handleProtobuf r in mret true
  else mret false.

End Handler.

(** The [AddRow] call [pushLogs] makes for one decoded row. *)
Definition pushedRow (msgFields : list string) (useDefaultStreamFields : bool)
    (r : DecodedRow) : Event :=
  let '(ts, fields, k) := r in
  EvAddRow ts (take k fields ++ RenameField (drop k fields) msgFields "_msg")
    (if useDefaultStreamFields then take k fields else []).

(** Rows carry no more leading stream fields than fields. *)
Definition wellFormedRow (r : DecodedRow) : Prop :=
  let '(_, fields, k) := r in k <= length fields.


(** How many events of a trace satisfy [p]. *)
Fixpoint countEvents (p : Event -> bool) (tr : list Event) : nat :=
  match tr with
  | [] => 0
  | e :: tr' => (if p e then 1 else 0) + countEvents p tr'
  end.

Definition isAddRow (e : Event) : bool :=
  match e with EvAddRow _ _ _ => true | _ => false end.


Definition isRequestsProtobufTotalInc (e : Event) : bool :=
  match e with EvRequestsProtobufTotalInc => true | _ => false end.

Definition isErrorsTotalInc (e : Event) : bool :=
  match e with EvErrorsTotalInc => true | _ => false end.

Definition isNewLogMessageProcessor (e : Event) : bool :=
  match e with EvNewLogMessageProcessor => true | _ => false end.

Definition isMustClose (e : Event) : bool :=
  match e with EvMustClose => true | _ => false end.

(** The two ways a request ends: an HTTP error reply, or the update of
    the request-duration summary. *)
Definition isRequestEnd (e : Event) : bool :=
  match e with EvHTTPError _ | EvRequestDurationUpdate => true | _ => false end.

(** A sample deployment for the OpenTelemetry path: JSON detection by the
    exact [application/json] type, writes accepted, an identity
    [uncompress] (the body is the envelope itself). *)
Definition sampleCommonParams (streamFields : list string) : CommonParams :=
  mkCommonParams streamFields ["message"].

Definition sampleGetCommonParams (streamFields : list string)
    (_ : Request LogsData) : CommonParams + Error :=
  inl (sampleCommonParams streamFields).


Definition sampleIsJSONContentType (ct : string) : bool :=
  bool_decide (ct = "application/json").

Definition sampleUncompress (b : LogsData) (_ : string) (_ : nat) : LogsData + Error :=
  inl b.

Definition sampleLogs : LogsData :=
  [mkResourceLogs [mkField "service.name" "api"]
     [LogRecordOK 1 [mkField "message" "hello"] None]].

(** One valid record followed by a corrupt trailing record. *)
Definition corruptTrailingLogs : LogsData :=
  [mkResourceLogs [mkField "service.name" "api"]
     [LogRecordOK 1 [] (Some "ok"); LogRecordCorrupt]].

Definition sampleRequest (ct : string) (data : LogsData) : Request LogsData :=
  mkRequest ct EmptyString data.

(* ================================================================== *)
(** ** apptest: process harness (app.go, vlsingle.go, vlcluster.go) *)

(** [strings.IndexByte]: the index of the first [c] in [s], or -1. *)
Fixpoint IndexByte (s : string) (c : ascii) : Z :=
  match s with
  | EmptyString => -1
  | String c' s' =>
      if Ascii.eqb c' c then 0
      else let n := IndexByte s' c in if (n <? 0)%Z then (-1)%Z else (n + 1)%Z
  end.

(** [strings.HasPrefix]. *)
Definition HasPrefix (s prefix : string) : bool := String.prefix prefix s.

(** [f[:n]] for [0 <= n <= len(f)]. *)
Definition sliceTo (s : string) (n : Z) : string := String.substring 0 (Z.to_nat n) s.

Definition quote : string := String "034"%char EmptyString.

(** [%q] of a string without special characters. *)
Definition fmtQ (s : string) : string := (quote ++ s ++ quote)%string.

(** Sequencing on [Outcome]: a panic stops the computation. *)
Definition obind {A B} (o : Outcome A) (k : A -> Outcome B) : Outcome B :=
  match o with Done a => k a | Panic m => Panic m end.

(** The first loop of [setDefaultFlags]: the names of the given flags. *)
Fixpoint flagNamesOf (flags : list string) : Outcome (list string) :=
  match flags with
  | [] => Done []
  | f :: fs =>
      if negb (HasPrefix f "-") then
        Panic ("BUG: flag must start with '-'; got " ++ fmtQ f)%string
      else
        let n := IndexByte f "=" in
        if (n <? 0)%Z then Panic ("BUG: cannot find '=' in the flag " ++ fmtQ f)%string
        else obind (flagNamesOf fs) (fun names => Done (sliceTo f n :: names))
  end.

(** The second loop: [for name, value := range defaultFlags]. A Go map is
    iterated in an unspecified order; [defaultFlags] lists its entries in
    the order of one iteration. *)
Fixpoint addDefaultFlags (flagNames : list string) (defaultFlags : list (string * string))
    (flags : list string) : Outcome (list string) :=
  match defaultFlags with
  | [] => Done flags
  | (name, value) :: ds =>
      if negb (HasPrefix name "-") then
        Panic ("BUG: default flag name must start with '-'; got " ++ fmtQ name)%string
      else
        addDefaultFlags flagNames ds
          (if bool_decide (name ∈ flagNames) then flags
           else flags ++ [(name ++ "=" ++ value)%string])
  end.

Definition setDefaultFlags (flags : list string) (defaultFlags : list (string * string))
    : Outcome (list string) :=
  obind (flagNamesOf flags) (fun flagNames => addDefaultFlags flagNames defaultFlags flags).

(** A flag the first loop accepts. *)
Definition validFlag (f : string) : bool :=
  HasPrefix f "-" && (0 <=? IndexByte f "=")%Z.

(** [fmt.Sprintf("%d", n)] for a natural number. *)
Fixpoint decimalAux (fuel n : nat) (acc : string) : string :=
  match fuel with
  | O => acc
  | S fuel' =>
      let acc' := String (ascii_of_nat (48 + n mod 10)) acc in
      if Nat.ltb n 10 then acc' else decimalAux fuel' (n / 10) acc'
  end.

Definition itoa (n : nat) : string := decimalAux (S n) n EmptyString.

(** Regular expressions whose first submatch is extracted from the logs. *)
Inductive ExtractRE := httpListenAddrRE | logsStorageDataPathRE.

(** [app]: a started process. *)
Record App := mkApp { appInstance : string; appBinary : string; appFlags : list string }.

Record Vlnode := mkVlnode { nodeApp : App; httpListenAddr : string }.

Record Vlsingle := mkVlsingle { singleNode : Vlnode; storageDataPath : string }.

Record Vlcluster := mkVlcluster {
  storageNodes : list Vlsingle;
  insertNode : Vlnode;
  selectNode : Vlnode
}.

(** Processes started by the harness. *)
Inductive AppEvent := StartApp (app : App).

Definition liftOutcome {A} (o : Outcome A) : @M AppEvent A := ([], o).

Section Harness.
(** What a started instance logs for each extract regexp, if anything
    within the timeout. *)
Variable extractOf : string -> ExtractRE -> option string.
(** [fmt.Sprintf("%s/%s-%d", os.TempDir(), instance, time.Now().UnixNano())]. *)
Variable storageDataPathFor : string -> string.
(** The iteration order Go picks for a map literal of default flags. *)
Variable mapIter : list (string * string) -> list (string * string).

Fixpoint extractAll (instance : string) (res : list ExtractRE) : option (list string) :=
  match res with
  | [] => Some []
  | re :: res' =>
      match extractOf instance re, extractAll instance res' with
      | Some x, Some xs => Some (x :: xs)
      | _, _ => None
      end
  end.

(** [mustStartApp]: [t.Fatalf] when some regexp is not matched in time. *)
Definition mustStartApp (instance binary : string) (flags : list string)
    (extractREs : list ExtractRE) : @M AppEvent (App * list string) :=
  let app := mkApp instance binary flags in
  let! _ := emit (StartApp app) in
  match extractAll instance extractREs with
  | Some extracts => mret (app, extracts)
  | None => mpanic "cannot extract from stdout and stderr"
  end.

Definition mustStartVlnode (instance : string) (flags : list string)
    (extraExtractREs : list ExtractRE) : @M AppEvent (Vlnode * list string) :=
  let extractREs := [httpListenAddrRE] ++ extraExtractREs in
  let! flags := liftOutcome (setDefaultFlags flags (mapIter [("-httpListenAddr", "127.0.0.1:0")])) in
  let! res := mustStartApp instance "../../bin/victoria-logs" flags extractREs in
  let '(app, extracts) := res in
  match extracts with
  | addr :: rest => mret (mkVlnode app addr, rest)
  | [] => mpanic "runtime error: index out of range"
  end.

Definition MustStartVlsingle (instance : string) (flags : list string) : @M AppEvent Vlsingle :=
  let path := storageDataPathFor instance in
  let! flags := liftOutcome (setDefaultFlags flags
                  (mapIter [("-storageDataPath", path); ("-retentionPeriod", "100y")])) in
  let! res := mustStartVlnode instance flags [logsStorageDataPathRE] in
  let '(node, extracts) := res in
  match extracts with
  | p :: _ => mret (mkVlsingle node p)
  | [] => mpanic "runtime error: index out of range"
  end.

(** The loop [for i := 0; i < 3; i++] starting the storage nodes. *)
Fixpoint startStorageNodes (instance : string) (storageFlags : list string) (is : list nat)
    : @M AppEvent (list Vlsingle) :=
  match is with
  | [] => mret []
  | i :: is' =>
      let storageName := (instance ++ "-storage-" ++ itoa i)%string in
      let! node := MustStartVlsingle storageName storageFlags in
      let! nodes := startStorageNodes instance storageFlags is' in
      mret (node :: nodes)
  end.

Definition MustStartVlcluster (instance : string) (storageFlags : list string)
    : @M AppEvent Vlcluster :=
  let! storageNodes := startStorageNodes instance storageFlags (seq 0 3) in
  let storageNodeAddrs := map (fun s => httpListenAddr (singleNode s)) storageNodes in
  let storageNodeFlag := ("-storageNode=" ++ String.concat "," storageNodeAddrs)%string in
  let insertName := (instance ++ "-insert")%string in
  let insertFlags := [storageNodeFlag; "-select.disable=true"] in
  let! ins := mustStartVlnode insertName insertFlags [] in
  let selectName := (instance ++ "-select")%string in
  let selectFlags := [storageNodeFlag; "-insert.disable=true"] in
  let! sel := mustStartVlnode selectName selectFlags [] in
  mret (mkVlcluster storageNodes (fst ins) (fst sel)).

End Harness.

Definition startedApp (e : AppEvent) : App := match e with StartApp a => a end.

Definition sampleExtractOf (inst : string) (re : ExtractRE) : option string :=
  Some (inst ++ match re with
               | httpListenAddrRE => ":9428"
               | logsStorageDataPathRE => "/data"
               end)%string.

Definition sampleStorageDataPathFor (inst : string) : string := ("/tmp/" ++ inst)%string.

Definition sampleCluster := MustStartVlcluster sampleExtractOf sampleStorageDataPathFor (fun l => l) "vlcluster" [].

(* ================================================================== *)
(** ** apptest/model.go: parsing /select/logsql/query responses *)

(** [bytes.Buffer.ReadString('\n')] applied until [io.EOF]: the complete
    lines, each with its trailing newline, and the unterminated remainder
    returned together with [io.EOF]. [cur] is the part of the current line
    read so far. *)
Fixpoint readLinesAux (cur s : string) : list string * string :=
  match s with
  | EmptyString => ([], cur)
  | String c rest =>
      if Ascii.eqb c "010"%char then
        let (ls, r) := readLinesAux EmptyString rest in
        ((cur ++ String c EmptyString)%string :: ls, r)
      else readLinesAux (cur ++ String c EmptyString)%string rest
  end.

Definition readLines (s : string) : list string * string := readLinesAux EmptyString s.

Definition joinLines (lines : list string) : string :=
  fold_right (fun l acc => (l ++ acc)%string) EmptyString lines.

Section QueryResponse.

(** [encoding/json] is outside this repository; [JValue] stands for Go's
    [any] and the two functions for [json.Unmarshal] into a
    [map[string]any] and for [json.Marshal] of such a map. *)
Variable JValue : Type.
Variable json_Unmarshal : string -> option (gmap string JValue).
Variable json_Marshal : gmap string JValue -> option string.

(** The body of the read loop for the complete lines; [t.Fatalf] is a
    [Panic] (its message is kept short: the [%q]-escaped line and the
    codec error are left out). *)
Fixpoint normalizeLines (lines : list string) : Outcome (list string) :=
  match lines with
  | [] => Done []
  | logLine :: lines' =>
      match json_Unmarshal logLine with
      | None => Panic ("cannot parse log line=" ++ logLine)%string
      | Some lv =>
          match json_Marshal (delete "_stream_id" lv) with
          | None => Panic ("cannot marshal parsed logline=" ++ logLine)%string
          | Some normalizedLine =>
              obind (normalizeLines lines') (fun ls => Done (normalizedLine :: ls))
          end
      end
  end.

(** [NewLogsQLQueryResponse]; the result is [res.LogLines]. *)
Definition NewLogsQLQueryResponse (s : string) : Outcome (list string) :=
  if Nat.eqb (String.length s) 0 then Done []
  else
    let (lines, logLine) := readLines s in
    obind (normalizeLines lines) (fun logLines =>
      if Nat.ltb 0 (String.length logLine)
      then Panic ("BUG: unexpected non-empty line=" ++ logLine ++ " with io.EOF")%string
      else Done logLines).

(** Modelled from the spec: the server's /select/logsql/query writes each
    matching row as a JSON object to which the synthetic [_stream_id] field
    of the row's stream is added. [jstring] stands for a JSON string
    value. *)
Variable jstring : string -> JValue.

Definition wireLogLine (streamID : string) (row : gmap string JValue) : gmap string JValue :=
  <["_stream_id" := jstring streamID]> row.

End QueryResponse.

(** A sample codec: every line decodes to an object with a [_stream_id]
    and an [x] field, and objects are written as their sorted key lists. *)
Definition sampleUnmarshal (line : string) : option (gmap string string) :=
  Some (<["x" := line]> (<["_stream_id" := "0001"]> ∅)).

Definition sampleMarshal (m : gmap string string) : option string :=
  Some (String.concat "," (map fst (map_to_list m))).

Definition newline : string := String "010"%char EmptyString.

Definition sampleQueryBody : string := ("a" ++ newline ++ "b" ++ newline)%string.

(* ================================================================== *)
(** ** Storage, insert and select nodes of a cluster *)

(** Modelled from the spec: the /insert/jsonline handler, the storage
    nodes and the select node's scatter-gather merge are not under src/;
    only the test driving them is. Spec 4.4-4.5, 5 and 6:
    - the insert node classifies each JSON-lines record and hands the row
      to the storage node owning its shard (each storage node owns a
      disjoint shard of rows);
    - a storage node buffers rows and makes them visible to queries on
      force-flush;
    - the select node sends the same query to every storage node and
      merges the partial results: counts by summation, [count_uniq] by the
      union of the distinct-value sets, facets by the union of the per-node
      (field, value) -> hits maps with hits summed;
    - the facets response lists fields by name, values by descending hits
      then by value, truncated to [max_values_per_field].
    The synthetic [_stream_id] field is left out of the facets here. *)

Definition streamLabel (streamFields : list Field) : string :=
  ("{" ++ String.concat ","
           (map (fun f => Name f ++ "=" ++ quote ++ Value f ++ quote) streamFields)
       ++ "}")%string.

(** A JSON-lines record after JSON decoding: its [_time] and its other
    fields in order. *)
Definition JSONRecord : Type := (Z * list Field)%type.

Definition classifyJSONLine (streamFieldNames : list string) (r : JSONRecord) : StoredRow :=
  mkStoredRow r.1 (ensureMsgField r.2) (filter (fun f => Name f ∈ streamFieldNames) r.2).

(** The fields a query sees on a stored row. *)
Definition queryFields (r : StoredRow) : list Field :=
  rowFields r ++ [mkField "_stream" (streamLabel (rowStreamFields r))].

Record StorageNode := mkStorageNode {
  buffered : list StoredRow;
  flushed : list StoredRow
}.

Definition emptyStorageNode : StorageNode := mkStorageNode [] [].

Definition storeRow (r : StoredRow) (n : StorageNode) : StorageNode :=
  mkStorageNode (buffered n ++ [r]) (flushed n).

Definition forceFlush (n : StorageNode) : StorageNode :=
  mkStorageNode [] (flushed n ++ buffered n).

(** The shard of the i-th record of a request: [shardOf i] modulo the
    number of storage nodes. *)
Definition shardsOf (shardOf : nat -> nat) (nodeCount recordCount : nat) : list nat :=
  map (fun i => shardOf i mod nodeCount) (seq 0 recordCount).

Fixpoint storeRows (rows : list (StoredRow * nat)) (nodes : list StorageNode)
    : list StorageNode :=
  match rows with
  | [] => nodes
  | (r, j) :: rows' => storeRows rows' (alter (storeRow r) j nodes)
  end.

Definition JSONLineWrite (shardOf : nat -> nat) (streamFieldNames : list string)
    (records : list JSONRecord) (nodes : list StorageNode) : list StorageNode :=
  storeRows (zip (map (classifyJSONLine streamFieldNames) records)
                 (shardsOf shardOf (length nodes) (length records))) nodes.

Definition ForceFlush (nodes : list StorageNode) : list StorageNode :=
  map forceFlush nodes.

(** Per-node partial results, over the flushed rows. *)
Definition countPartial (n : StorageNode) : nat := length (flushed n).

Definition countUniqStreamPartial (n : StorageNode) : gset string :=
  list_to_set (map (fun r => streamLabel (rowStreamFields r)) (flushed n)).

Definition FacetCounts : Type := gmap (string * string) nat.

Definition addHit (f : Field) (m : FacetCounts) : FacetCounts :=
  <[(Name f, Value f) := default 0 (m !! (Name f, Value f)) + 1]> m.

Definition facetsPartial (n : StorageNode) : FacetCounts :=
  foldr addHit ∅ (concat (map queryFields (flushed n))).

(** The select node's merge. *)
Definition selectCount (nodes : list StorageNode) : nat :=
  sum_list (map countPartial nodes).

Definition selectCountUniqStream (nodes : list StorageNode) : nat :=
  size (⋃ (map countUniqStreamPartial nodes)).

Definition mergeFacets (ps : list FacetCounts) : FacetCounts :=
  foldr (union_with (fun a b => Some (a + b))) ∅ ps.

Module FieldNameOrder <: Orders.TotalLeBool.
Definition t := string.
Definition leb := String.leb.
Definition leb_total : forall x y, leb x y = true \/ leb y x = true :=
  String.leb_total.
End FieldNameOrder.

(** Value entries: descending hits, then ascending value. *)
Module FieldValueOrder <: Orders.TotalLeBool.
Definition t := (string * nat)%type.
Definition leb (p q : t) : bool :=
  Nat.ltb q.2 p.2 || (Nat.eqb p.2 q.2 && String.leb p.1 q.1).
Definition leb_total : forall x y, leb x y = true \/ leb y x = true.
Proof.
  intros [v1 h1] [v2 h2]. unfold leb; simpl.
  destruct (Nat.lt_trichotomy h1 h2) as [Hl|[<-|Hl]].
  - right. apply orb_true_intro. left. by apply Nat.ltb_lt.
  - rewrite Nat.eqb_refl, Nat.ltb_irrefl. simpl.
    destruct (String.leb_total v1 v2); auto.
  - left. apply orb_true_intro. left. by apply Nat.ltb_lt.
Defined.
End FieldValueOrder.

Module FieldNameSort := Mergesort.Sort FieldNameOrder.
Module FieldValueSort := Mergesort.Sort FieldValueOrder.

Definition facetFieldNames (m : FacetCounts) : list string :=
  FieldNameSort.sort (remove_dups (map (fun kv => kv.1.1) (map_to_list m))).

Definition facetValues (m : FacetCounts) (name : string) : list (string * nat) :=
  FieldValueSort.sort
    (map (fun kv => (kv.1.2, kv.2)) (filter (fun kv => kv.1.1 = name) (map_to_list m))).

Definition truncateValues (maxValuesPerField : option nat) (vs : list (string * nat))
    : list (string * nat) :=
  match maxValuesPerField with
  | None => vs
  | Some k => take k vs
  end.

(** The /select/logsql/facets response: field name and value entries. *)
Definition facetsResponse (maxValuesPerField : option nat) (m : FacetCounts)
    : list (string * list (string * nat)) :=
  map (fun name => (name, truncateValues maxValuesPerField (facetValues m name)))
    (facetFieldNames m).

Definition selectFacets (maxValuesPerField : option nat) (nodes : list StorageNode)
    : list (string * list (string * nat)) :=
  facetsResponse maxValuesPerField (mergeFacets (map facetsPartial nodes)).

(** The rows of the [facets] pipe, and [filter field_name:=name]. *)
Definition facetRows (resp : list (string * list (string * nat)))
    : list (string * string * nat) :=
  concat (map (fun e => map (fun vh => (e.1, vh.1, vh.2)) e.2) resp).

Definition filterFieldName (name : string) (rows : list (string * string * nat))
    : list (string * string * nat) :=
  filter (fun r => r.1.1 = name) rows.

(** TestVlclusterIngestAndQuery: the five records, ingested with stream
    field [x] into the three storage nodes of a default cluster, then
    force-flushed. *)
Definition testTime : Z := 1735693200.

Definition vlclusterTestRecords : list JSONRecord :=
  [(testTime, [mkField "_msg" "abc"; mkField "x" "y"]);
   (testTime, [mkField "_msg" "def"; mkField "x" "y"]);
   (testTime, [mkField "_msg" "gh"; mkField "x" "y"]);
   (testTime, [mkField "_msg" "aa"; mkField "x" "z"]);
   (testTime, [mkField "_msg" "aa"; mkField "x" "y"])].

Definition vlclusterIngested (shardOf : nat -> nat) : list StorageNode :=
  ForceFlush (JSONLineWrite shardOf ["x"] vlclusterTestRecords
                (replicate 3 emptyStorageNode)).

(* ================================================================== *)
(** ** apptest/model.go: query arguments ([net/url.Values]) *)

(** [url.Values]: a [map[string][]string]. *)
Abbreviation UrlValues := (gmap string (list string)).

(** [func (v Values) Add(key, value string)]:
    [v[key] = append(v[key], value)]; a missing key reads as [nil]. *)
Definition urlValuesAdd (key value : string) (uv : UrlValues) : UrlValues :=
  <[key := default [] (uv !! key) ++ [value]]> uv.

(** [addNonEmpty(uv, name, values...)]; [url.Values] is a map, so the
    caller's [uv] is the updated one, returned here. *)
Definition addNonEmpty (uv : UrlValues) (name : string) (values : list string) : UrlValues :=
  fold_left (fun uv value => if String.eqb value EmptyString then uv
                             else urlValuesAdd name value uv) values uv.

(** [QueryOpts] *)
Record QueryOpts := mkQueryOpts {
  qoTimeout : string;
  qoStart : string;
  qoEnd : string;
  qoLimit : string;
  qoExtraFilters : list string
}.

Definition QueryOpts_asURLValues (qos : QueryOpts) : UrlValues :=
  let uv := ∅ in
  let uv := addNonEmpty uv "timeout" [qoTimeout qos] in
  let uv := addNonEmpty uv "start" [qoStart qos] in
  let uv := addNonEmpty uv "end" [qoEnd qos] in
  let uv := addNonEmpty uv "limit" [qoLimit qos] in
  addNonEmpty uv "extra_filters" (qoExtraFilters qos).

(** [FacetsOpts] *)
Record FacetsOpts := mkFacetsOpts {
  foStart : string;
  foEnd : string;
  foLimit : string;
  foMaxValuesPerField : string;
  foMaxValueLen : string;
  foKeepConstFields : string;
  foExtraFilters : list string
}.

Definition FacetsOpts_asURLValues (fos : FacetsOpts) : UrlValues :=
  let uv := ∅ in
  let uv := addNonEmpty uv "start" [foStart fos] in
  let uv := addNonEmpty uv "end" [foEnd fos] in
  let uv := addNonEmpty uv "limit" [foLimit fos] in
  let uv := addNonEmpty uv "max_values_per_field" [foMaxValuesPerField fos] in
  let uv := addNonEmpty uv "max_value_len" [foMaxValueLen fos] in
  let uv := addNonEmpty uv "keep_const_fields" [foKeepConstFields fos] in
  addNonEmpty uv "extra_filters" (foExtraFilters fos).

(** [StatsQueryOpts] *)
Record StatsQueryOpts := mkStatsQueryOpts {
  sqTimeout : string;
  sqTime : string;
  sqExtraFilters : list string
}.

Definition StatsQueryOpts_asURLValues (qos : StatsQueryOpts) : UrlValues :=
  let uv := ∅ in
  let uv := addNonEmpty uv "timeout" [sqTimeout qos] in
  let uv := addNonEmpty uv "time" [sqTime qos] in
  addNonEmpty uv "extra_filters" (sqExtraFilters qos).

(** [StatsQueryRangeOpts] *)
Record StatsQueryRangeOpts := mkStatsQueryRangeOpts {
  srTimeout : string;
  srStart : string;
  srEnd : string;
  srStep : string;
  srExtraFilters : list string
}.

Definition StatsQueryRangeOpts_asURLValues (qos : StatsQueryRangeOpts) : UrlValues :=
  let uv := ∅ in
  let uv := addNonEmpty uv "timeout" [srTimeout qos] in
  let uv := addNonEmpty uv "start" [srStart qos] in
  let uv := addNonEmpty uv "end" [srEnd qos] in
  let uv := addNonEmpty uv "step" [srStep qos] in
  addNonEmpty uv "extra_filters" (srExtraFilters qos).

(** [IngestOpts] *)
Record IngestOpts := mkIngestOpts {
  ioMessageField : string;
  ioStreamFields : string;
  ioTimeField : string
}.

Definition IngestOpts_asURLValues (qos : IngestOpts) : UrlValues :=
  let uv := ∅ in
  let uv := addNonEmpty uv "_time_field" [ioTimeField qos] in
  let uv := addNonEmpty uv "_stream_fields" [ioStreamFields qos] in
  addNonEmpty uv "_msg_field" [ioMessageField qos].

(** The form [LogsQLQuery] (of [Vlsingle] and of [Vlcluster]) posts:
    [values := opts.asURLValues(); values.Add("query", query)]. *)
Definition LogsQLQuery_values (query : string) (opts : QueryOpts) : UrlValues :=
  urlValuesAdd "query" query (QueryOpts_asURLValues opts).

(** The form [Vlcluster.Facets] posts. *)
Definition Facets_values (query : string) (opts : FacetsOpts) : UrlValues :=
  urlValuesAdd "query" query (FacetsOpts_asURLValues opts).

(** The form [Vlsingle.StatsQueryRaw] posts. *)
Definition StatsQueryRaw_values (query : string) (opts : StatsQueryOpts) : UrlValues :=
  urlValuesAdd "query" query (StatsQueryOpts_asURLValues opts).

(** The form [Vlsingle.StatsQueryRangeRaw] posts. *)
Definition StatsQueryRangeRaw_values (query : string) (opts : StatsQueryRangeOpts) : UrlValues :=
  urlValuesAdd "query" query (StatsQueryRangeOpts_asURLValues opts).

(** The query arguments of [Vlsingle.NativeWrite]:
    [uv := opts.asURLValues(); uv.Add("version", "v1")]. *)
Definition NativeWrite_values (opts : QueryOpts) : UrlValues :=
  urlValuesAdd "version" "v1" (QueryOpts_asURLValues opts).

(** The body [JSONLineWrite] (of [Vlsingle] and of [Vlcluster]) posts:
    [strings.Join(records, "\n")]. *)
Definition JSONLineWrite_data (records : list string) : string :=
  String.concat newline records.

(** The values [addNonEmpty] keeps, in order; [None] for a key it leaves
    unset. *)
Definition nonEmptyValues (values : list string) : option (list string) :=
  match filter (fun v => v <> EmptyString) values with
  | [] => None
  | vs => Some vs
  end.

(** The values of a key whose values were [old] once [addNonEmpty] has
    appended [values] to it. *)
Definition addedValues (old : option (list string)) (values : list string)
    : option (list string) :=
  match filter (fun v => v <> EmptyString) values with
  | [] => old
  | vs => Some (default [] old ++ vs)
  end.

(** A string without the byte [c]. *)
Definition noByte (c : ascii) (s : string) : Prop := (IndexByte s c < 0)%Z.

(* ================================================================== *)
(** ** apptest: stopping apps *)

(** Calls [app.Stop] makes on the app's process. *)
Inductive StopEvent :=
| SignalInterrupt (app : App)
| WaitProcess (app : App).

Section Stop.
(** The errors [app.process.Signal(os.Interrupt)] and
    [app.process.Wait()] return for an app, if any. *)
Variable signalErr : App -> option string.
Variable waitErr : App -> option string.

(** [app.Stop]: [log.Fatalf] is a [Panic]. *)
Definition appStop (app : App) : @M StopEvent unit :=
  let! _ := emit (SignalInterrupt app) in
  match signalErr app with
  | Some err =>
      mpanic ("Could not send SIGINT signal to " ++ appInstance app ++ " process: " ++ err)%string
  | None =>
      let! _ := emit (WaitProcess app) in
      match waitErr app with
      | Some err =>
          mpanic ("Could not wait for " ++ appInstance app ++ " process completion: " ++ err)%string
      | None => mret tt
      end
  end.

(** [Vlsingle.Stop]: [app.node.Stop()], the [Stop] of the embedded [app]. *)
Definition Vlsingle_Stop (s : Vlsingle) : @M StopEvent unit :=
  appStop (nodeApp (singleNode s)).

(** [Vlcluster.Stop] *)
Definition Vlcluster_Stop (c : Vlcluster) : @M StopEvent unit :=
  let! _ := mfor Vlsingle_Stop (storageNodes c) in
  let! _ := appStop (nodeApp (insertNode c)) in
  appStop (nodeApp (selectNode c)).

End Stop.

(* ================================================================== *)
(** ** apptest/app.go: line processors *)

(** [lineProcessor]: returns whether it is done. *)
Abbreviation lineProcessor := (string -> bool).

Section ProcessOutput.
(** The order in which [range activeLPs] visits the keys of the map while
    the line with the given number is processed; Go leaves the iteration
    order of a map unspecified. *)
Variable iterOrder : nat -> list nat -> list nat.

(** [for i, process := range activeLPs { if process(line) { delete(activeLPs, i) } }]
    over the keys [keys] present when the range starts; a key deleted
    before it is reached is skipped. The result is the calls made, as
    (processor index, line), and the map after the range. *)
Fixpoint rangeActiveLPs (line : string) (keys : list nat) (activeLPs : gmap nat lineProcessor)
    : list (nat * string) * gmap nat lineProcessor :=
  match keys with
  | [] => ([], activeLPs)
  | i :: keys' =>
      match activeLPs !! i with
      | None => rangeActiveLPs line keys' activeLPs
      | Some process =>
          let activeLPs' := if (process : string -> bool) line then delete i activeLPs else activeLPs in
          let '(calls, m) := rangeActiveLPs line keys' activeLPs' in
          ((i, line) :: calls, m)
      end
  end.

(** [for scanner.Scan() { line := scanner.Text(); ... }]; [lineNo] counts
    the lines scanned so far. *)
Fixpoint processLines (lineNo : nat) (lines : list string) (activeLPs : gmap nat lineProcessor)
    : list (nat * string) :=
  match lines with
  | [] => []
  | line :: lines' =>
      let '(calls, activeLPs') :=
        rangeActiveLPs line (iterOrder lineNo (map fst (map_to_list activeLPs))) activeLPs in
      calls ++ processLines (S lineNo) lines' activeLPs'
  end.

(** [app.processOutput] on an output whose scanned lines are [lines]:
    [activeLPs[i] = lp] for each [i, lp]. The result lists the processor
    calls in the order they are made; the final [log.Printf] of a scanner
    error is left out. *)
Definition processOutput (lines : list string) (lps : list lineProcessor) : list (nat * string) :=
  processLines 0 lines (map_seq 0 lps : gmap nat lineProcessor).

End ProcessOutput.

(** [app.writeToStderr]: writes the line and is never done. *)
Definition writeToStderr (line : string) : bool := false.

(** The lines a processor is called on when it sees every line until it
    is done: up to and including the first line on which it returns true. *)
Fixpoint linesUntilDone (lp : lineProcessor) (lines : list string) : list string :=
  match lines with
  | [] => []
  | line :: lines' => line :: (if lp line then [] else linesUntilDone lp lines')
  end.

Section ExtractRE.
(** [x.re.FindSubmatch([]byte(line))]: [nil] when the line does not
    match, otherwise the match followed by the submatches. *)
Variable FindSubmatch : string -> list string.

(** [reExtractor.extractRE]: whether the processor is done, and the value
    it offers on [x.result] (the [select] that also waits for the timeout
    is not modelled: the offer may be dropped). *)
Definition extractRE (line : string) : bool * option string :=
  let submatch := FindSubmatch line in
  if Nat.ltb 0 (length submatch) then
    let result := if Nat.ltb 1 (length submatch) then nth 1 submatch EmptyString
                  else EmptyString in
    (true, Some result)
  else (false, None).

End ExtractRE.

(** [extractREMatches]. [reflect.Select(cases)] yields the index of the
    ready case and the value received: [i < n] for the result channel of
    the i-th extractor, [n] for the timeout; [selected] lists the cases
    in the order they are chosen. [None] stands for a [Select] that never
    returns. The error carries [values(notFoundREs)] (the text around it
    is left out), in the iteration order of the map. *)
Fixpoint extractLoop (n notFound : nat) (selected : list (nat * string))
    (notFoundREs : gmap nat string) (extracts : list string)
    : option (list string + list string) :=
  match notFound with
  | O => Some (inl extracts)
  | S notFound' =>
      match selected with
      | [] => None
      | (i, value) :: selected' =>
          if Nat.eqb i n then Some (inr (map snd (map_to_list notFoundREs)))
          else extractLoop n notFound' selected' (delete i notFoundREs) (<[i := value]> extracts)
      end
  end.

(** [reStrings] are the [x.re.String()] of the extractors, in order. *)
Definition extractREMatches (reStrings : list string) (selected : list (nat * string))
    : option (list string + list string) :=
  let n := length reStrings in
  extractLoop n n selected (map_seq 0 reStrings : gmap nat string) (replicate n EmptyString).

(** A sample regexp: matches one line, with one group. *)
Definition sampleFindSubmatch (line : string) : list string :=
  if String.eqb line "listening on 1" then ["listening on 1"; "1"] else [].

(* ================================================================== *)
(** ** Lemmas on the ingestion path *)

Section Lemmas.

Lemma length_RenameField fields oldNames newName :
  length (RenameField fields oldNames newName) = length fields.
Proof. unfold RenameField. by rewrite length_map. Qed.

Lemma pushLogs_ok msgFields u ts fields k :
  k <= length fields ->
  pushLogs msgFields u ts fields k = ([pushedRow msgFields u (ts, fields, k)], Done tt).
Proof.
  intros Hk. unfold pushLogs, slice_from, slice_to, pushedRow.
  rewrite decide_True by lia. simpl.
  destruct u; simpl.
  - rewrite decide_True.
    2:{ rewrite length_app, length_take. lia. }
    simpl. rewrite take_app_length'; [done|]. rewrite length_take. lia.
  - done.
Qed.

Lemma mfor_pushLogs msgFields u rows :
  Forall wellFormedRow rows ->
  mfor (fun '(ts, fields, k) => pushLogs msgFields u ts fields k) rows
  = (map (pushedRow msgFields u) rows, Done tt).
Proof.
  induction 1 as [|[[ts fields] k] rows Hr Hrows IH]; [done|].
  simpl. rewrite pushLogs_ok by exact Hr. simpl. rewrite IH. done.
Qed.

Lemma decodeLogRecords_wf idx res lrs rows :
  decodeLogRecords idx res lrs = inl rows -> Forall wellFormedRow rows.
Proof.
  revert idx rows. induction lrs as [|[ts attrs body|] lrs IH]; simpl; intros idx rows H.
  - by injection H as <-.
  - destruct (decodeLogRecords (S idx) res lrs) as [rows'|e] eqn:E; [|done].
    injection H as <-. constructor; [|by eapply IH].
    simpl. rewrite length_app. lia.
  - done.
Qed.

Lemma decodeResourceLogs_wf idx data rows :
  decodeResourceLogs idx data = inl rows -> Forall wellFormedRow rows.
Proof.
  revert idx rows. induction data as [|rl data IH]; simpl; intros idx rows H.
  - by injection H as <-.
  - destruct (decodeLogRecords idx _ _) as [r1|e] eqn:E1; [|done].
    destruct (decodeResourceLogs _ data) as [r2|e] eqn:E2; [|done].
    injection H as <-. apply Forall_app. split; [by eapply decodeLogRecords_wf|by eapply IH].
Qed.

(** A corrupt record anywhere in the payload fails the decoding. *)
Lemma decodeLogRecords_corrupt idx res lrs :
  LogRecordCorrupt ∈ lrs -> exists e, decodeLogRecords idx res lrs = inr e.
Proof.
  revert idx. induction lrs as [|[ts attrs body|] lrs IH]; simpl; intros idx H.
  - by apply not_elem_of_nil in H.
  - apply elem_of_cons in H as [H|H]; [done|].
    destruct (IH (S idx) H) as [e He]. rewrite He. by eexists.
  - by eexists.
Qed.

Lemma decodeResourceLogs_corrupt idx data :
  (exists rl, rl ∈ data /\ LogRecordCorrupt ∈ logRecords rl) ->
  exists e, decodeResourceLogs idx data = inr e.
Proof.
  revert idx. induction data as [|rl' data IH]; simpl; intros idx (rl & Hin & Hc).
  - by apply not_elem_of_nil in Hin.
  - apply elem_of_cons in Hin as [->|Hin].
    + destruct (decodeLogRecords_corrupt idx (resourceAttributes rl') _ Hc) as [e ->].
      by eexists.
    + destruct (decodeLogRecords idx _ _) as [r1|e]; [|by eexists].
      destruct (IH (idx + length (logRecords rl'))) as [e ->]; [by eauto|].
      by eexists.
Qed.

Lemma countEvents_app p t1 t2 :
  countEvents p (t1 ++ t2) = countEvents p t1 + countEvents p t2.
Proof. induction t1 as [|e t1 IH]; simpl; [done|]. rewrite IH. lia. Qed.

Lemma rowsStored_app t1 t2 : rowsStored (t1 ++ t2) = rowsStored t1 ++ rowsStored t2.
Proof. unfold rowsStored. apply omap_app. Qed.

End Lemmas.

Section HandlerLemmas.
Variable Body : Type.
Variable GetCommonParams : Request Body -> CommonParams + Error.
Variable IsJSONContentType : string -> bool.
Variable CanWriteData : option Error.
Variable uncompress : Body -> string -> nat -> LogsData + Error.

Local Abbreviation handle := (handleProtobuf Body GetCommonParams CanWriteData uncompress).

(** The whole trace of a request that reaches a successful decode. *)
Lemma handleProtobuf_trace_ok r cp data rows :
  GetCommonParams r = inl cp ->
  CanWriteData = None ->
  uncompress (ReqBody r) (ContentEncoding r) maxRequestSize = inl data ->
  decodeResourceLogs 0 data = inl rows ->
  handle r =
  ([EvRequestsProtobufTotalInc; EvCanWriteData; EvReadBody; EvNewLogMessageProcessor]
   ++ map (pushedRow (MsgFields cp) (bool_decide (length (StreamFields cp) = 0))) rows
   ++ [EvMustClose; EvRequestDurationUpdate], Done tt).
Proof.
  intros Hcp Hw Hu Hd. unfold handleProtobuf, ReadUncompressedData, pushProtobufRequest,
    decodeLogsData.
  rewrite Hcp, Hw, Hu, Hd. simpl.
  rewrite mfor_pushLogs by (by eapply decodeResourceLogs_wf). simpl.
  rewrite <- !app_assoc. done.
Qed.

(** The trace of a request whose payload fails to decode. *)
Lemma handleProtobuf_trace_decode_error r cp data e :
  GetCommonParams r = inl cp ->
  CanWriteData = None ->
  uncompress (ReqBody r) (ContentEncoding r) maxRequestSize = inl data ->
  decodeResourceLogs 0 data = inr e ->
  handle r =
  ([EvRequestsProtobufTotalInc; EvCanWriteData; EvReadBody; EvNewLogMessageProcessor;
    EvErrorsTotalInc; EvMustClose;
    EvHTTPError (ErrWrap "cannot read OpenTelemetry protocol data"
                  (ErrWrap "cannot decode LogsData request" e))], Done tt).
Proof.
  intros Hcp Hw Hu Hd. unfold handleProtobuf, ReadUncompressedData, pushProtobufRequest,
    decodeLogsData.
  rewrite Hcp, Hw, Hu, Hd. done.
Qed.

End HandlerLemmas.

Section HandlerCountLemmas.
Variable Body : Type.
Variable GetCommonParams : Request Body -> CommonParams + Error.
Variable CanWriteData : option Error.
Variable uncompress : Body -> string -> nat -> LogsData + Error.

Local Abbreviation handle := (handleProtobuf Body GetCommonParams CanWriteData uncompress).



End HandlerCountLemmas.

(* ================================================================== *)
(** ** Claims about the OpenTelemetry ingestion path *)

Section OTLPClaims.
Variable Body : Type.
Variable GetCommonParams : Request Body -> CommonParams + Error.
Variable IsJSONContentType : string -> bool.
Variable CanWriteData : option Error.
Variable uncompress : Body -> string -> nat -> LogsData + Error.

(** C1 (amended): [useDefaultStreamFields] is true exactly when the
    request configures no stream fields. Every decoded row is passed to
    [AddRow] (one [AddRow] per decoded row), with its leading
    [streamFieldsLen] fields unchanged at the front of its fields; these
    leading fields are its stream fields when the request configures no
    stream fields, and it gets no stream fields from the decoder when
    stream fields are configured. *)
Theorem otlp_stream_fields_follow_config r cp data rows :
  GetCommonParams r = inl cp ->
  CanWriteData = None ->
  uncompress (ReqBody r) (ContentEncoding r) maxRequestSize = inl data ->
  decodeResourceLogs 0 data = inl rows ->
  countEvents isAddRow (fst (handleProtobuf Body GetCommonParams CanWriteData uncompress r))
  = length rows /\
  forall ts f0 k, (ts, f0, k) ∈ rows ->
  exists fields sfs,
    EvAddRow ts fields sfs
      ∈ fst (handleProtobuf Body GetCommonParams CanWriteData uncompress r) /\
    take k fields = take k f0 /\ length (take k f0) = k /\
    (StreamFields cp = [] -> sfs = take k f0) /\
    (StreamFields cp <> [] -> sfs = []).
Proof.
  intros Hcp Hw Hu Hd.
  rewrite (handleProtobuf_trace_ok Body GetCommonParams CanWriteData uncompress
             r cp data rows Hcp Hw Hu Hd). simpl.
  pose proof (decodeResourceLogs_wf 0 data rows Hd) as Hwf.
  set (u := bool_decide (length (StreamFields cp) = 0)).
  split.
  { rewrite countEvents_app. simpl. rewrite Nat.add_0_r.
    clear Hd Hwf. induction rows as [|[[ts f] k] rows IH]; [done|]. simpl. by rewrite IH. }
  intros ts f0 k Hrow.
  rewrite Forall_forall in Hwf. specialize (Hwf _ Hrow).
  simpl in Hwf.
  exists (take k f0 ++ RenameField (drop k f0) (MsgFields cp) "_msg"),
    (if u then take k f0 else []).
  split.
  { do 4 (apply elem_of_cons; right). apply elem_of_app. left.
    apply list_elem_of_In, in_map_iff. exists (ts, f0, k). split; [done|].
    by apply list_elem_of_In. }
  split; [rewrite take_app_length'; [done|]; rewrite length_take; lia|].
  split; [rewrite length_take; lia|].
  unfold u. split.
  - intros Hnil. rewrite Hnil. done.
  - intros Hne. destruct (StreamFields cp); [done|]. done.
Qed.

(** C2: a payload with a corrupt log record stores no row of the request,
    and a request that gets as far as decoding fails with the decode
    error. *)
Theorem otlp_decode_failure_stores_nothing r data :
  uncompress (ReqBody r) (ContentEncoding r) maxRequestSize = inl data ->
  (exists rl, rl ∈ data /\ LogRecordCorrupt ∈ logRecords rl) ->
  rowsStored (fst (handleProtobuf Body GetCommonParams CanWriteData uncompress r)) = [] /\
  (forall cp, GetCommonParams r = inl cp -> CanWriteData = None ->
   exists e, last (fst (handleProtobuf Body GetCommonParams CanWriteData uncompress r))
     = Some (EvHTTPError (ErrWrap "cannot read OpenTelemetry protocol data"
                          (ErrWrap "cannot decode LogsData request" e)))).
Proof.
  intros Hu Hc.
  destruct (decodeResourceLogs_corrupt 0 data Hc) as [e He].
  destruct (GetCommonParams r) as [cp|err] eqn:Hcp.
  2:{ unfold handleProtobuf. rewrite Hcp. split; [done|]. intros ? [=]. }
  assert (CanWriteData = None \/ exists err, CanWriteData = Some err) as [Hw|[err Hw]]
    by (destruct CanWriteData; eauto).
  2:{ unfold handleProtobuf. rewrite Hcp, Hw. split; [done|]. intros ? _ [=]. }
  rewrite (handleProtobuf_trace_decode_error Body GetCommonParams CanWriteData uncompress
             r cp data e Hcp Hw Hu He).
  split; [done|]. intros ? _ _. by exists e.
Qed.

(** C4: a JSON-typed request to the OpenTelemetry path is answered with
    the "Use protobuf encoding" error and ingests nothing; every other
    request to the path is handled by the protobuf handler. *)
Theorem otlp_json_content_type_rejected r :
  IsJSONContentType (ContentType r) = true ->
  RequestHandler Body GetCommonParams IsJSONContentType CanWriteData uncompress
    "/insert/opentelemetry/v1/logs" r
  = ([EvHTTPError (ErrText jsonUnsupportedMsg)], Done true) /\
  rowsStored [EvHTTPError (ErrText jsonUnsupportedMsg)] = [] /\
  (forall r', IsJSONContentType (ContentType r') = false ->
   RequestHandler Body GetCommonParams IsJSONContentType CanWriteData uncompress
     "/insert/opentelemetry/v1/logs" r'
   = mbind (handleProtobuf Body GetCommonParams CanWriteData uncompress r')
       (fun _ => mret true)).
Proof.
  intros Hj. unfold RequestHandler. rewrite decide_True by done.
  rewrite Hj. split; [done|]. split; [done|].
  intros r' Hj'. rewrite decide_True by done. by rewrite Hj'.
Qed.


End OTLPClaims.

(** C6: [pushLogs] renames message fields only in the non-stream part of a
    row, leaving the leading [streamFieldsLen] fields as they are, and a
    row in which no field becomes [_msg] is stored with an empty [_msg]. *)
Theorem otlp_msg_rename_only_non_stream msgFields u ts fields k :
  k <= length fields ->
  exists fields' sfs,
    pushLogs msgFields u ts fields k = ([EvAddRow ts fields' sfs], Done tt) /\
    take k fields' = take k fields /\
    drop k fields' = RenameField (drop k fields) msgFields "_msg" /\
    ((forall f, f ∈ drop k fields -> Name f ∉ msgFields) ->
     (forall f, f ∈ fields -> Name f <> "_msg") ->
     exists row, rowsStored [EvAddRow ts fields' sfs] = [row] /\
                 mkField "_msg" EmptyString ∈ rowFields row).
Proof.
  intros Hk. rewrite pushLogs_ok by exact Hk. simpl.
  eexists _, _. split; [reflexivity|].
  assert (length (take k fields) = k) as Hl by (rewrite length_take; lia).
  split; [by rewrite take_app_length'|].
  split; [by rewrite drop_app_length'|].
  intros Hnomatch Hnomsg. eexists. split; [reflexivity|]. simpl.
  unfold ensureMsgField. rewrite decide_False.
  { apply elem_of_app. right. by apply list_elem_of_singleton. }
  intros Hex. apply Exists_exists in Hex as (f & Hf & Hname).
  apply elem_of_app in Hf as [Hf|Hf].
  - apply (Hnomsg f); [|done]. rewrite <- (take_drop k fields).
    apply elem_of_app. by left.
  - unfold RenameField in Hf. apply list_elem_of_In, in_map_iff in Hf as (f0 & <- & Hf0).
    apply list_elem_of_In in Hf0.
    destruct (decide (Name f0 ∈ msgFields)) as [Hm|Hm].
    + by apply (Hnomatch f0).
    + apply (Hnomsg f0); [|done]. rewrite <- (take_drop k fields).
      apply elem_of_app. by right.
Qed.

(* ------------------------------------------------------------------ *)
(** Witnesses and counterexamples for the OpenTelemetry claims *)

Lemma otlp_stream_fields_follow_config_witness :
  decodeResourceLogs 0 sampleLogs
  = inl [(1%Z, [mkField "service.name" "api"; mkField "message" "hello"], 1)] /\
  countEvents isAddRow
    (fst (handleProtobuf LogsData (sampleGetCommonParams []) None sampleUncompress
            (sampleRequest "application/x-protobuf" sampleLogs)))
  = length [(1%Z, [mkField "service.name" "api"; mkField "message" "hello"], 1)] /\
  exists fields sfs,
    EvAddRow 1 fields sfs
      ∈ fst (handleProtobuf LogsData (sampleGetCommonParams []) None sampleUncompress
              (sampleRequest "application/x-protobuf" sampleLogs)) /\
    take 1 fields = take 1 [mkField "service.name" "api"; mkField "message" "hello"] /\
    length (take 1 [mkField "service.name" "api"; mkField "message" "hello"]) = 1 /\
    (StreamFields (sampleCommonParams []) = [] ->
     sfs = take 1 [mkField "service.name" "api"; mkField "message" "hello"]) /\
    (StreamFields (sampleCommonParams []) <> [] -> sfs = []).
Proof.
  assert (decodeResourceLogs 0 sampleLogs
          = inl [(1%Z, [mkField "service.name" "api"; mkField "message" "hello"], 1)]) as Hd
    by reflexivity.
  split; [exact Hd|].
  destruct (otlp_stream_fields_follow_config LogsData (sampleGetCommonParams []) None
              sampleUncompress (sampleRequest "application/x-protobuf" sampleLogs)
              (sampleCommonParams []) sampleLogs _ eq_refl eq_refl eq_refl Hd) as [Hc Hall].
  split; [exact Hc|].
  apply Hall. apply list_elem_of_In. left. reflexivity.
Defined.

(** C1 as stated fails: with no stream fields configured the leading
    resource attribute is passed to [AddRow] as a stream field. *)
Lemma otlp_stream_fields_counterexample :
  StreamFields (sampleCommonParams []) = [] /\
  exists ts fields sfs,
    EvAddRow ts fields sfs
      ∈ fst (handleProtobuf LogsData (sampleGetCommonParams []) None sampleUncompress
              (sampleRequest "application/x-protobuf" sampleLogs)) /\
    sfs <> [].
Proof.
  split; [reflexivity|].
  exists 1%Z, [mkField "service.name" "api"; mkField "_msg" "hello"],
    [mkField "service.name" "api"].
  split; [|discriminate].
  apply list_elem_of_In. simpl. repeat (first [left; reflexivity | right]).
Qed.

Lemma otlp_decode_failure_stores_nothing_witness :
  (exists rl, rl ∈ corruptTrailingLogs /\ LogRecordCorrupt ∈ logRecords rl) /\
  rowsStored (fst (handleProtobuf LogsData (sampleGetCommonParams []) None sampleUncompress
                     (sampleRequest "application/x-protobuf" corruptTrailingLogs))) = [].
Proof.
  assert (exists rl, rl ∈ corruptTrailingLogs /\ LogRecordCorrupt ∈ logRecords rl) as Hc.
  { eexists. split; [apply list_elem_of_In; simpl; left; reflexivity|].
    apply list_elem_of_In. simpl. right. left. reflexivity. }
  split; [exact Hc|].
  apply (otlp_decode_failure_stores_nothing LogsData (sampleGetCommonParams []) None
           sampleUncompress (sampleRequest "application/x-protobuf" corruptTrailingLogs)
           corruptTrailingLogs); [reflexivity|exact Hc].
Defined.

Lemma otlp_json_content_type_rejected_witness :
  sampleIsJSONContentType "application/json" = true /\
  RequestHandler LogsData (sampleGetCommonParams []) sampleIsJSONContentType None
    sampleUncompress "/insert/opentelemetry/v1/logs"
    (sampleRequest "application/json" sampleLogs)
  = ([EvHTTPError (ErrText jsonUnsupportedMsg)], Done true).
Proof.
  split; [reflexivity|].
  apply (otlp_json_content_type_rejected LogsData (sampleGetCommonParams [])
           sampleIsJSONContentType None sampleUncompress
           (sampleRequest "application/json" sampleLogs)).
  reflexivity.
Defined.


Lemma otlp_msg_rename_only_non_stream_witness :
  1 <= length [mkField "service.name" "api"; mkField "level" "info"] /\
  exists fields' sfs,
    pushLogs ["message"] true 7 [mkField "service.name" "api"; mkField "level" "info"] 1
      = ([EvAddRow 7 fields' sfs], Done tt) /\
    take 1 fields' = take 1 [mkField "service.name" "api"; mkField "level" "info"] /\
    drop 1 fields' = RenameField (drop 1 [mkField "service.name" "api"; mkField "level" "info"])
                       ["message"] "_msg" /\
    ((forall f, f ∈ drop 1 [mkField "service.name" "api"; mkField "level" "info"] ->
        Name f ∉ ["message"]) ->
     (forall f, f ∈ [mkField "service.name" "api"; mkField "level" "info"] -> Name f <> "_msg") ->
     exists row, rowsStored [EvAddRow 7 fields' sfs] = [row] /\
                 mkField "_msg" EmptyString ∈ rowFields row).
Proof.
  split; [simpl; lia|].
  apply otlp_msg_rename_only_non_stream. simpl. lia.
Defined.

(* ================================================================== *)
(** ** Lemmas on the apptest harness *)

Lemma mbind_Done_inv {Ev A B} (m : @M Ev A) (k : A -> @M Ev B) tr b :
  mbind m k = (tr, Done b) ->
  exists t1 a t2, m = (t1, Done a) /\ k a = (t2, Done b) /\ tr = t1 ++ t2.
Proof.
  destruct m as [t1 [a|msg]]; simpl; [|congruence].
  destruct (k a) as [t2 r] eqn:E. intros [= <- ->]. eauto 10.
Qed.

Lemma flagNamesOf_valid flags :
  Forall (fun f => validFlag f = true) flags ->
  flagNamesOf flags = Done (map (fun f => sliceTo f (IndexByte f "=")) flags).
Proof.
  induction 1 as [|f fs Hf Hfs IH]; [done|]. simpl.
  unfold validFlag in Hf. apply andb_true_iff in Hf as [Hp Hi].
  rewrite Hp. simpl. apply Z.leb_le in Hi.
  assert ((IndexByte f "=" <? 0)%Z = false) as -> by (apply Z.ltb_ge; lia).
  by rewrite IH.
Qed.

Lemma flagNamesOf_invalid flags :
  Exists (fun f => validFlag f = false) flags -> exists msg, flagNamesOf flags = Panic msg.
Proof.
  induction 1 as [f fs Hf|f fs Hfs IH]; simpl.
  - unfold validFlag in Hf. destruct (HasPrefix f "-"); simpl; [|by eexists].
    apply Z.leb_gt in Hf. apply Z.ltb_lt in Hf. rewrite Hf. by eexists.
  - destruct (negb (HasPrefix f "-")); [by eexists|].
    destruct (IndexByte f "=" <? 0)%Z; [by eexists|].
    destruct IH as [msg ->]. by eexists.
Qed.

Lemma addDefaultFlags_spec flagNames defaultFlags acc :
  Forall (fun nv => HasPrefix (fst nv) "-" = true) defaultFlags ->
  addDefaultFlags flagNames defaultFlags acc
  = Done (acc ++ map (fun nv => (fst nv ++ "=" ++ snd nv)%string)
                   (filter (fun nv => fst nv ∉ flagNames) defaultFlags)).
Proof.
  intros Hds. revert acc.
  induction Hds as [|[name value] ds Hn Hds IH]; intros acc; simpl in *.
  - by rewrite app_nil_r.
  - rewrite Hn. simpl. rewrite IH. rewrite filter_cons. simpl.
    destruct (bool_decide (name ∈ flagNames)) eqn:Hb.
    + apply bool_decide_eq_true in Hb. rewrite decide_False by (intros H; by apply H). done.
    + apply bool_decide_eq_false in Hb. rewrite decide_True by done. simpl.
      by rewrite <- app_assoc.
Qed.

Lemma addDefaultFlags_prefix flagNames defaultFlags acc out :
  addDefaultFlags flagNames defaultFlags acc = Done out -> exists extra, out = acc ++ extra.
Proof.
  revert acc. induction defaultFlags as [|[name value] ds IH]; simpl; intros acc H.
  - injection H as <-. exists []. by rewrite app_nil_r.
  - destruct (negb (HasPrefix name "-")); [discriminate|].
    apply IH in H as [extra ->]. case_bool_decide.
    + by eexists.
    + exists ([(name ++ "=" ++ value)%string] ++ extra). by rewrite app_assoc.
Qed.

Lemma addDefaultFlags_bad flagNames defaultFlags acc :
  Exists (fun nv => HasPrefix (fst nv) "-" = false) defaultFlags ->
  exists msg, addDefaultFlags flagNames defaultFlags acc = Panic msg.
Proof.
  intros Hbad. revert acc.
  induction Hbad as [[name value] ds Hn|[name value] ds Hds IH]; intros acc; simpl in *.
  - rewrite Hn. by eexists.
  - destruct (negb (HasPrefix name "-")); [by eexists|]. apply IH.
Qed.

Lemma setDefaultFlags_prefix flags defaultFlags out :
  setDefaultFlags flags defaultFlags = Done out -> exists extra, out = flags ++ extra.
Proof.
  unfold setDefaultFlags. destruct (flagNamesOf flags) as [names|msg]; simpl; [|discriminate].
  apply addDefaultFlags_prefix.
Qed.


Section HarnessLemmas.
Variable extractOf : string -> ExtractRE -> option string.
Variable storageDataPathFor : string -> string.
Variable mapIter : list (string * string) -> list (string * string).

Lemma mustStartVlnode_Done instance flags extra tr node rest :
  mustStartVlnode extractOf mapIter instance flags extra = (tr, Done (node, rest)) ->
  tr = [StartApp (nodeApp node)] /\
  appInstance (nodeApp node) = instance /\
  exists more, appFlags (nodeApp node) = flags ++ more.
Proof.
  unfold mustStartVlnode. intros H.
  apply mbind_Done_inv in H as (t1 & flags' & t2 & H1 & H2 & ->).
  unfold liftOutcome in H1. injection H1 as <- Hsd.
  apply mbind_Done_inv in H2 as (t3 & [app extracts] & t4 & H3 & H4 & ->).
  unfold mustStartApp in H3.
  destruct (extractAll extractOf instance ([httpListenAddrRE] ++ extra)) as [xs|];
    simpl in H3; [|congruence].
  injection H3 as <- <- <-.
  destruct xs as [|addr xs]; simpl in H4; [discriminate|].
  injection H4 as <- <- <-. simpl.
  split; [done|]. split; [done|]. by eapply setDefaultFlags_prefix.
Qed.

Lemma MustStartVlsingle_Done instance flags tr s :
  MustStartVlsingle extractOf storageDataPathFor mapIter instance flags = (tr, Done s) ->
  tr = [StartApp (nodeApp (singleNode s))] /\ appInstance (nodeApp (singleNode s)) = instance.
Proof.
  unfold MustStartVlsingle. intros H.
  apply mbind_Done_inv in H as (t1 & flags' & t2 & H1 & H2 & ->).
  injection H1 as <- _.
  apply mbind_Done_inv in H2 as (t3 & [node extracts] & t4 & H3 & H4 & ->).
  apply mustStartVlnode_Done in H3 as (-> & Hi & _).
  destruct extracts as [|p ps]; simpl in H4; [discriminate|].
  injection H4 as <- <-. simpl. done.
Qed.

Lemma startStorageNodes_Done instance flags is tr nodes :
  startStorageNodes extractOf storageDataPathFor mapIter instance flags is = (tr, Done nodes) ->
  map startedApp tr = map (fun s => nodeApp (singleNode s)) nodes /\
  map (fun s => appInstance (nodeApp (singleNode s))) nodes
  = map (fun i => (instance ++ "-storage-" ++ itoa i)%string) is.
Proof.
  revert tr nodes. induction is as [|i is IH]; simpl; intros tr nodes H.
  - injection H as <- <-. done.
  - apply mbind_Done_inv in H as (t1 & s & t2 & H1 & H2 & ->).
    apply MustStartVlsingle_Done in H1 as (-> & Hi).
    apply mbind_Done_inv in H2 as (t3 & ns & t4 & H3 & H4 & ->).
    injection H4 as <- <-. apply IH in H3 as [Ht Hn].
    rewrite app_nil_r. simpl. rewrite Ht, Hi, Hn. done.
Qed.

End HarnessLemmas.

(* ================================================================== *)
(** ** Claims about the apptest harness *)

(** C8: starting a cluster starts exactly five processes: three storage
    nodes, then an insert node whose flags begin with the comma-joined
    [-storageNode] list of the three storage nodes' addresses and
    [-select.disable=true], then a select node with the same list and
    [-insert.disable=true]. *)
Theorem MustStartVlcluster_topology extractOf storageDataPathFor mapIter
    instance storageFlags tr c :
  MustStartVlcluster extractOf storageDataPathFor mapIter instance storageFlags
    = (tr, Done c) ->
  length (storageNodes c) = 3 /\
  map (fun e => appInstance (startedApp e)) tr
  = [(instance ++ "-storage-0")%string; (instance ++ "-storage-1")%string;
     (instance ++ "-storage-2")%string; (instance ++ "-insert")%string;
     (instance ++ "-select")%string] /\
  map startedApp tr
  = map (fun s => nodeApp (singleNode s)) (storageNodes c)
    ++ [nodeApp (insertNode c); nodeApp (selectNode c)] /\
  take 2 (appFlags (nodeApp (insertNode c)))
  = [("-storageNode=" ++ String.concat ","
        (map (fun s => httpListenAddr (singleNode s)) (storageNodes c)))%string;
     "-select.disable=true"] /\
  take 2 (appFlags (nodeApp (selectNode c)))
  = [("-storageNode=" ++ String.concat ","
        (map (fun s => httpListenAddr (singleNode s)) (storageNodes c)))%string;
     "-insert.disable=true"].
Proof.
  unfold MustStartVlcluster. intros H.
  apply mbind_Done_inv in H as (t1 & nodes & t2 & H1 & H2 & ->).
  apply startStorageNodes_Done in H1 as [Ht1 Hn].
  apply mbind_Done_inv in H2 as (t3 & [ins irest] & t4 & H3 & H4 & ->).
  apply mbind_Done_inv in H4 as (t5 & [sel srest] & t6 & H5 & H6 & ->).
  injection H6 as <- <-.
  apply mustStartVlnode_Done in H3 as (-> & Hii & imore & Hif).
  apply mustStartVlnode_Done in H5 as (-> & Hsi & smore & Hsf).
  assert (map (fun e => appInstance (startedApp e)) t1
          = map (fun s => appInstance (nodeApp (singleNode s))) nodes) as Hi1.
  { rewrite <- (map_map startedApp appInstance), Ht1, map_map. done. }
  simpl. rewrite !map_app, Ht1, Hi1, Hn. simpl.
  assert (length nodes = 3) as Hlen.
  { apply (f_equal length) in Hn. rewrite !length_map in Hn. exact Hn. }
  split; [exact Hlen|].
  split; [rewrite Hii, Hsi; done|].
  split; [done|].
  rewrite Hif, Hsf. done.
Qed.

(** C10 (amended): when every given flag starts with '-' and contains '='
    and every default flag name starts with '-', [setDefaultFlags] returns
    the given flags unchanged and in order, followed by "name=value" for
    each default whose name is not the name (the text before the first '=')
    of a given flag, in the map's iteration order. A given flag without
    '-' or '=' panics whatever the defaults, and a default flag name
    without '-' panics whatever the given flags. *)
Theorem setDefaultFlags_spec flags defaultFlags :
  (Forall (fun f => validFlag f = true) flags ->
   Forall (fun nv => HasPrefix (fst nv) "-" = true) defaultFlags ->
   setDefaultFlags flags defaultFlags
   = Done (flags ++ map (fun nv => (fst nv ++ "=" ++ snd nv)%string)
                     (filter (fun nv => fst nv ∉ map (fun f => sliceTo f (IndexByte f "=")) flags)
                        defaultFlags))) /\
  (Exists (fun f => validFlag f = false) flags ->
   exists msg, setDefaultFlags flags defaultFlags = Panic msg) /\
  (Exists (fun nv => HasPrefix (fst nv) "-" = false) defaultFlags ->
   exists msg, setDefaultFlags flags defaultFlags = Panic msg).
Proof.
  split; [|split].
  - intros Hf Hd. unfold setDefaultFlags. rewrite flagNamesOf_valid by exact Hf. simpl.
    by apply addDefaultFlags_spec.
  - intros Hbad. unfold setDefaultFlags.
    destruct (flagNamesOf_invalid flags Hbad) as [msg ->]. by eexists.
  - intros Hbad. unfold setDefaultFlags.
    destruct (flagNamesOf flags) as [names|msg]; simpl; [|by eexists].
    by apply addDefaultFlags_bad.
Qed.

Lemma MustStartVlcluster_topology_witness :
  exists tr c,
    sampleCluster = (tr, Done c) /\
    length (storageNodes c) = 3.
Proof.
  destruct sampleCluster as [tr [c|msg]] eqn:E;
    [|vm_compute in E; discriminate].
  exists tr, c. split; [reflexivity|].
  exact (proj1 (MustStartVlcluster_topology _ _ _ _ _ tr c E)).
Defined.

Lemma setDefaultFlags_spec_witness :
  Forall (fun f => validFlag f = true) ["-httpListenAddr=127.0.0.1:9428"] /\
  setDefaultFlags ["-httpListenAddr=127.0.0.1:9428"]
    [("-httpListenAddr", "127.0.0.1:0"); ("-retentionPeriod", "100y")]
  = Done (["-httpListenAddr=127.0.0.1:9428"] ++
          map (fun nv => (fst nv ++ "=" ++ snd nv)%string)
            (filter (fun nv => fst nv ∉ map (fun f => sliceTo f (IndexByte f "="))
                                         ["-httpListenAddr=127.0.0.1:9428"])
               [("-httpListenAddr", "127.0.0.1:0"); ("-retentionPeriod", "100y")])) /\
  exists msg, setDefaultFlags ["-httpListenAddr=127.0.0.1:9428"]
                [("-httpListenAddr", "127.0.0.1:0"); ("retentionPeriod", "100y")] = Panic msg.
Proof.
  assert (Forall (fun f => validFlag f = true) ["-httpListenAddr=127.0.0.1:9428"]) as Hf
    by (repeat constructor).
  split; [exact Hf|]. split.
  - apply (proj1 (setDefaultFlags_spec _ _) Hf). repeat constructor.
  - apply (proj2 (proj2 (setDefaultFlags_spec ["-httpListenAddr=127.0.0.1:9428"]
                           [("-httpListenAddr", "127.0.0.1:0"); ("retentionPeriod", "100y")]))).
    apply Exists_cons_tl. apply Exists_cons_hd. reflexivity.
Defined.

(** C10 as stated fails: an empty (hence valid) flag list with a default
    flag name lacking '-' panics instead of returning. *)
Lemma setDefaultFlags_counterexample :
  Forall (fun f => validFlag f = true) [] /\
  setDefaultFlags [] [("retentionPeriod", "100y")]
  = Panic ("BUG: default flag name must start with '-'; got " ++ fmtQ "retentionPeriod")%string.
Proof. split; [constructor|reflexivity]. Qed.

(* ================================================================== *)
(** ** Lemmas on the query-response parser *)

Lemma string_app_assoc (a b c : string) : ((a ++ b) ++ c)%string = (a ++ (b ++ c))%string.
Proof. induction a as [|x a IH]; [reflexivity|exact (f_equal (String x) IH)]. Qed.

Lemma string_app_empty (a : string) : (a ++ EmptyString)%string = a.
Proof. induction a as [|x a IH]; [reflexivity|exact (f_equal (String x) IH)]. Qed.

Lemma readLinesAux_join cur s :
  (joinLines (fst (readLinesAux cur s)) ++ snd (readLinesAux cur s))%string
  = (cur ++ s)%string.
Proof.
  revert cur. induction s as [|c s IH]; intros cur; simpl.
  - by rewrite string_app_empty.
  - destruct (Ascii.eqb c "010"%char).
    + specialize (IH EmptyString).
      destruct (readLinesAux EmptyString s) as [ls r]. simpl in *.
      rewrite string_app_assoc, IH, string_app_assoc. done.
    + rewrite IH, string_app_assoc. done.
Qed.

Lemma readLines_join s :
  (joinLines (fst (readLines s)) ++ snd (readLines s))%string = s.
Proof. apply readLinesAux_join. Qed.

Section QueryResponseLemmas.
Variable JValue : Type.
Variable json_Unmarshal : string -> option (gmap string JValue).
Variable json_Marshal : gmap string JValue -> option string.

Lemma normalizeLines_Done lines res :
  normalizeLines JValue json_Unmarshal json_Marshal lines = Done res ->
  Forall2 (fun logLine n => exists lv,
             json_Unmarshal logLine = Some lv /\
             json_Marshal (delete "_stream_id" lv) = Some n) lines res.
Proof.
  revert res. induction lines as [|l lines IH]; intros res H; simpl in H.
  - injection H as <-. constructor.
  - destruct (json_Unmarshal l) as [lv|] eqn:Eu; [|discriminate].
    destruct (json_Marshal (delete "_stream_id" lv)) as [n|] eqn:Em; [|discriminate].
    destruct (normalizeLines JValue json_Unmarshal json_Marshal lines) as [ns|m] eqn:En;
      simpl in H; [|discriminate].
    injection H as <-. constructor; [by exists lv|]. by apply IH.
Qed.

End QueryResponseLemmas.

(* ================================================================== *)
(** ** Claims about the query-response parser *)

Section QueryResponseClaims.
Variable JValue : Type.
Variable json_Unmarshal : string -> option (gmap string JValue).
Variable json_Marshal : gmap string JValue -> option string.
Variable jstring : string -> JValue.

(** C9: the wire line of every returned row carries [_stream_id] and keeps
    the row's other keys; when [NewLogsQLQueryResponse] accepts a body,
    the body is exactly its newline-terminated lines, and the i-th entry of
    [LogLines] is the encoding of the i-th line's object with the key
    [_stream_id] absent and every other key mapped as in the line; the
    empty body gives no log lines. *)
Theorem NewLogsQLQueryResponse_drops_stream_id s res
    (H : NewLogsQLQueryResponse JValue json_Unmarshal json_Marshal s = Done res) :
  joinLines (fst (readLines s)) = s /\
  Forall2 (fun logLine n => exists lv norm,
             json_Unmarshal logLine = Some lv /\
             norm !! "_stream_id" = None /\
             (forall k, k <> "_stream_id" -> norm !! k = lv !! k) /\
             json_Marshal norm = Some n)
    (fst (readLines s)) res /\
  NewLogsQLQueryResponse JValue json_Unmarshal json_Marshal EmptyString = Done [] /\
  (forall streamID row,
     wireLogLine JValue jstring streamID row !! "_stream_id" = Some (jstring streamID) /\
     (forall k, k <> "_stream_id" -> wireLogLine JValue jstring streamID row !! k = row !! k)).
Proof.
  split; [|split; [|split]].
  - unfold NewLogsQLQueryResponse in H.
    destruct (Nat.eqb (String.length s) 0) eqn:E0.
    { destruct s; [done|discriminate]. }
    pose proof (readLines_join s) as Hj.
    destruct (readLines s) as [lines r]. simpl in *.
    destruct (normalizeLines JValue json_Unmarshal json_Marshal lines); simpl in H; [|discriminate].
    destruct (Nat.ltb 0 (String.length r)) eqn:Er; [discriminate|].
    destruct r as [|c r]; [|discriminate].
    by rewrite string_app_empty in Hj.
  - unfold NewLogsQLQueryResponse in H.
    destruct (Nat.eqb (String.length s) 0) eqn:E0.
    { destruct s; [|discriminate]. injection H as <-. constructor. }
    destruct (readLines s) as [lines r]. simpl.
    destruct (normalizeLines JValue json_Unmarshal json_Marshal lines) eqn:En;
      simpl in H; [|discriminate].
    destruct (Nat.ltb 0 (String.length r)); [discriminate|]. injection H as <-.
    apply normalizeLines_Done in En.
    eapply Forall2_impl; [exact En|]. intros l n (lv & Hu & Hm).
    exists lv, (delete "_stream_id" lv). split; [done|]. split; [by rewrite lookup_delete|].
    split; [|done]. intros k Hk. by rewrite lookup_delete_ne by congruence.
  - reflexivity.
  - intros sid row. unfold wireLogLine. split; [by rewrite lookup_insert|].
    intros k Hk. by rewrite lookup_insert_ne by congruence.
Qed.

End QueryResponseClaims.

Lemma NewLogsQLQueryResponse_drops_stream_id_witness :
  NewLogsQLQueryResponse string sampleUnmarshal sampleMarshal sampleQueryBody = Done ["x"; "x"] /\
  joinLines (fst (readLines sampleQueryBody)) = sampleQueryBody.
Proof.
  assert (NewLogsQLQueryResponse string sampleUnmarshal sampleMarshal sampleQueryBody
          = Done ["x"; "x"]) as H by (vm_compute; reflexivity).
  split; [exact H|].
  exact (proj1 (NewLogsQLQueryResponse_drops_stream_id string sampleUnmarshal sampleMarshal
                  (fun v => v) _ _ H)).
Defined.


(* ================================================================== *)
(** ** Lemmas on the cluster model *)

Lemma shardsOf_3_5 (shardOf : nat -> nat) :
  exists a0 a1 a2 a3 a4, shardsOf shardOf 3 5 = [a0; a1; a2; a3; a4] /\
    a0 < 3 /\ a1 < 3 /\ a2 < 3 /\ a3 < 3 /\ a4 < 3.
Proof.
  exists (shardOf 0 mod 3), (shardOf 1 mod 3), (shardOf 2 mod 3),
         (shardOf 3 mod 3), (shardOf 4 mod 3).
  split; [reflexivity|]. repeat split; apply Nat.mod_upper_bound; lia.
Qed.

Lemma StronglySorted_take {A} (R : A -> A -> Prop) (l : list A) k :
  StronglySorted R l -> StronglySorted R (take k l).
Proof.
  revert k. induction l as [|x l IH]; intros k H; destruct k; simpl;
    [constructor|constructor|constructor|].
  apply StronglySorted_inv in H as [Hl Hx]. constructor; [by apply IH|].
  rewrite Forall_forall in Hx |- *. intros y Hy. apply Hx.
  by apply (subseteq_take k l).
Qed.

Lemma StronglySorted_strict {A B} (R R' : A -> A -> Prop) (g : A -> B) (l : list A) :
  (forall x y, R x y -> g x <> g y -> R' x y) ->
  StronglySorted R l -> NoDup (map g l) -> StronglySorted R' l.
Proof.
  intros HR. induction l as [|x l IH]; intros Hs Hn; [constructor|].
  apply StronglySorted_inv in Hs as [Hl Hx]. simpl in Hn.
  apply NoDup_cons in Hn as [Hnx Hn]. constructor; [by apply IH|].
  rewrite Forall_forall in Hx |- *. intros y Hy. apply HR; [by apply Hx|].
  intros Heq. apply Hnx. rewrite Heq. apply list_elem_of_In, in_map, list_elem_of_In, Hy.
Qed.

Lemma string_leb_trans a b c :
  String.leb a b = true -> String.leb b c = true -> String.leb a c = true.
Proof.
  intros H1 H2. apply Is_true_true.
  change (String.le a c). transitivity b; unfold String.le; by apply Is_true_true.
Qed.

Lemma string_leb_neq_lt a b :
  String.leb a b = true -> a <> b -> (a ?= b)%string = Lt.
Proof.
  unfold String.leb. intros H Hne. destruct (a ?= b)%string eqn:E; try done.
  by apply String.compare_eq_iff in E.
Qed.

Lemma FieldValueOrder_trans :
  Transitive (fun x y => is_true (FieldValueOrder.leb x y)).
Proof.
  intros [v1 h1] [v2 h2] [v3 h3]. unfold is_true, FieldValueOrder.leb; simpl.
  rewrite !orb_true_iff, !andb_true_iff, !Nat.ltb_lt, !Nat.eqb_eq.
  intros [H1|[-> H1]] [H2|[-> H2]]; try (left; lia).
  right. split; [done|]. by eapply string_leb_trans.
Qed.

Lemma FieldNameOrder_trans :
  Transitive (fun x y => is_true (FieldNameOrder.leb x y)).
Proof. intros a b c. apply string_leb_trans. Qed.

Lemma NoDup_facet_values name (l : list ((string * string) * nat)) :
  NoDup (map fst l) ->
  NoDup (map (fun kv => kv.1.2) (filter (fun kv => kv.1.1 = name) l)).
Proof.
  induction l as [|[[n v] h] l IH]; intros Hn; simpl; [constructor|].
  simpl in Hn. apply NoDup_cons in Hn as [Hnx Hn].
  rewrite filter_cons. case_decide as Hname; simpl in *; [|by apply IH].
  constructor; [|by apply IH]. subst n.
  intros Hin. apply Hnx. apply list_elem_of_In in Hin. apply in_map_iff in Hin
    as ([[n' v'] h'] & Hv & Hin). simpl in Hv. subst v'.
  apply list_elem_of_In in Hin. apply list_elem_of_filter in Hin as [Hn' Hin].
  simpl in Hn'. subst n'. apply list_elem_of_In, in_map_iff.
  exists (name, v, h'). split; [done|]. by apply list_elem_of_In.
Qed.

Lemma facetFieldNames_sorted m :
  StronglySorted (fun a b => (a ?= b)%string = Lt) (facetFieldNames m).
Proof.
  unfold facetFieldNames.
  apply (StronglySorted_strict (fun x y => is_true (FieldNameOrder.leb x y)) _ (fun x => x)).
  - intros x y H Hne. by apply string_leb_neq_lt.
  - apply FieldNameSort.StronglySorted_sort, FieldNameOrder_trans.
  - rewrite map_id.
    apply (proj1 (NoDup_Permutation_proper _ _ (FieldNameSort.Permuted_sort _))).
    apply NoDup_remove_dups.
Qed.

Lemma facetValues_sorted m name :
  StronglySorted
    (fun p q => q.2 < p.2 \/ (p.2 = q.2 /\ (p.1 ?= q.1)%string = Lt))
    (facetValues m name).
Proof.
  unfold facetValues.
  apply (StronglySorted_strict (fun x y => is_true (FieldValueOrder.leb x y)) _ fst).
  - intros [v1 h1] [v2 h2]. unfold is_true, FieldValueOrder.leb; simpl.
    rewrite !orb_true_iff, !andb_true_iff, !Nat.ltb_lt, !Nat.eqb_eq.
    intros [H|[-> H]] Hne; [by left|]. right. split; [done|].
    by apply string_leb_neq_lt.
  - apply FieldValueSort.StronglySorted_sort, FieldValueOrder_trans.
  - apply (proj1 (NoDup_Permutation_proper _ _
                    (Permutation_map fst (FieldValueSort.Permuted_sort _)))).
    rewrite map_map. simpl. apply NoDup_facet_values, NoDup_fst_map_to_list.
Qed.

(* ================================================================== *)
(** ** Claims about the cluster query path *)

(** C3: whichever storage node each of the five test records is sharded
    to, ingesting them with stream field [x] into the three storage nodes
    and force-flushing gives [count_uniq(_stream)] = 2, [count()] = 5, and
    the facets rows of field [x] are exactly [(x, y, 4)] then
    [(x, z, 1)]. *)
Theorem vlcluster_ingest_and_query (shardOf : nat -> nat) :
  selectCountUniqStream (vlclusterIngested shardOf) = 2 /\
  selectCount (vlclusterIngested shardOf) = 5 /\
  filterFieldName "x" (facetRows (selectFacets None (vlclusterIngested shardOf)))
  = [("x", "y", 4); ("x", "z", 1)].
Proof.
  unfold vlclusterIngested, JSONLineWrite.
  change (length (replicate 3 emptyStorageNode)) with 3.
  change (length vlclusterTestRecords) with 5.
  destruct (shardsOf_3_5 shardOf) as (a0 & a1 & a2 & a3 & a4 & -> & H0 & H1 & H2 & H3 & H4).
  destruct a0 as [|[|[|a0]]]; try (exfalso; lia);
  destruct a1 as [|[|[|a1]]]; try (exfalso; lia);
  destruct a2 as [|[|[|a2]]]; try (exfalso; lia);
  destruct a3 as [|[|[|a3]]]; try (exfalso; lia);
  destruct a4 as [|[|[|a4]]]; try (exfalso; lia);
  vm_compute; repeat split.
Qed.

(** C7: for any contents of the storage nodes and any
    [max_values_per_field], the facets response lists its field entries in
    strictly ascending order of field name, and within each field the value
    entries by strictly descending hits, equal hits in strictly ascending
    order of value. *)
Theorem facets_response_sorted (maxValuesPerField : option nat) (nodes : list StorageNode) :
  StronglySorted (fun a b => (a ?= b)%string = Lt)
    (map fst (selectFacets maxValuesPerField nodes)) /\
  Forall (fun e => StronglySorted
                     (fun p q => q.2 < p.2 \/ (p.2 = q.2 /\ (p.1 ?= q.1)%string = Lt)) e.2)
    (selectFacets maxValuesPerField nodes).
Proof.
  unfold selectFacets, facetsResponse. split.
  - rewrite map_map. simpl. rewrite map_id. apply facetFieldNames_sorted.
  - apply Forall_forall. intros [name vs] Hin. simpl.
    apply list_elem_of_In, in_map_iff in Hin as (name' & [= <- <-] & _).
    destruct maxValuesPerField; simpl; [apply StronglySorted_take|]; apply facetValues_sorted.
Qed.


(* ================================================================== *)
(** ** Lemmas on query arguments *)

Lemma addedValues_app old a b :
  addedValues (addedValues old a) b = addedValues old (a ++ b).
Proof.
  unfold addedValues. rewrite filter_app.
  destruct (filter (fun v => v <> EmptyString) a) as [|x a'];
    destruct (filter (fun v => v <> EmptyString) b) as [|y b']; simpl;
    rewrite ?app_nil_r; try done.
  by rewrite <- app_assoc.
Qed.

Lemma nonEmptyValues_addedValues values : nonEmptyValues values = addedValues None values.
Proof.
  unfold nonEmptyValues, addedValues.
  by destruct (filter (fun v => v <> EmptyString) values).
Qed.

Lemma addNonEmpty_lookups uv name values :
  addNonEmpty uv name values !! name = addedValues (uv !! name) values /\
  (forall k, k <> name -> addNonEmpty uv name values !! k = uv !! k).
Proof.
  revert uv. induction values as [|v values IH]; intros uv; simpl.
  - split; [|done]. reflexivity.
  - destruct (String.eqb v EmptyString) eqn:Ev.
    + apply String.eqb_eq in Ev as ->. destruct (IH uv) as [IH1 IH2].
      split; [|exact IH2]. rewrite IH1. unfold addedValues. rewrite filter_cons.
      rewrite decide_False by (intros H; by apply H). done.
    + apply String.eqb_neq in Ev.
      destruct (IH (urlValuesAdd name v uv)) as [IH1 IH2]. split.
      * rewrite IH1. unfold urlValuesAdd. rewrite lookup_insert_eq.
        change (v :: values) with ([v] ++ values). rewrite <- addedValues_app.
        f_equal. unfold addedValues. rewrite filter_cons, decide_True by exact Ev. done.
      * intros k Hk. rewrite IH2 by exact Hk. unfold urlValuesAdd.
        by rewrite lookup_insert_ne by congruence.
Qed.

(** A sequence of [addNonEmpty] calls on a new map. *)
Lemma addNonEmpty_chain ps uv k :
  fold_left (fun uv p => addNonEmpty uv (fst p) (snd p)) ps uv !! k
  = addedValues (uv !! k) (concat (map snd (filter (fun p => fst p = k) ps))).
Proof.
  revert uv. induction ps as [|[n vs] ps IH]; intros uv; simpl.
  - unfold addedValues. reflexivity.
  - rewrite IH, filter_cons. simpl.
    destruct (decide (n = k)) as [->|Hne].
    + simpl. rewrite (proj1 (addNonEmpty_lookups uv k vs)). apply addedValues_app.
    + by rewrite (proj2 (addNonEmpty_lookups uv n vs) k) by congruence.
Qed.

Lemma filter_fst_absent {B} (ps : list (string * B)) k :
  k ∉ map fst ps -> filter (fun p => fst p = k) ps = [].
Proof.
  induction ps as [|[n v] ps IH]; intros Hk; [done|]. simpl in Hk.
  rewrite filter_cons. simpl. rewrite decide_False.
  - apply IH. intros H. apply Hk. by right.
  - intros ->. apply Hk. by left.
Qed.

Lemma chain_absent ps k :
  k ∉ map fst ps ->
  fold_left (fun uv p => addNonEmpty uv (fst p) (snd p)) ps (∅ : UrlValues) !! k = None.
Proof.
  intros Hk. rewrite addNonEmpty_chain, filter_fst_absent by exact Hk. reflexivity.
Qed.

Lemma chain_present ps k :
  fold_left (fun uv p => addNonEmpty uv (fst p) (snd p)) ps (∅ : UrlValues) !! k
  = nonEmptyValues (concat (map snd (filter (fun p => fst p = k) ps))).
Proof. rewrite addNonEmpty_chain, nonEmptyValues_addedValues. reflexivity. Qed.

Lemma QueryOpts_asURLValues_chain q :
  QueryOpts_asURLValues q
  = fold_left (fun uv p => addNonEmpty uv (fst p) (snd p))
      [("timeout", [qoTimeout q]); ("start", [qoStart q]); ("end", [qoEnd q]);
       ("limit", [qoLimit q]); ("extra_filters", qoExtraFilters q)] ∅.
Proof. reflexivity. Qed.

Lemma FacetsOpts_asURLValues_chain fo :
  FacetsOpts_asURLValues fo
  = fold_left (fun uv p => addNonEmpty uv (fst p) (snd p))
      [("start", [foStart fo]); ("end", [foEnd fo]); ("limit", [foLimit fo]);
       ("max_values_per_field", [foMaxValuesPerField fo]);
       ("max_value_len", [foMaxValueLen fo]);
       ("keep_const_fields", [foKeepConstFields fo]);
       ("extra_filters", foExtraFilters fo)] ∅.
Proof. reflexivity. Qed.

Lemma StatsQueryOpts_asURLValues_chain sq :
  StatsQueryOpts_asURLValues sq
  = fold_left (fun uv p => addNonEmpty uv (fst p) (snd p))
      [("timeout", [sqTimeout sq]); ("time", [sqTime sq]);
       ("extra_filters", sqExtraFilters sq)] ∅.
Proof. reflexivity. Qed.

Lemma StatsQueryRangeOpts_asURLValues_chain sr :
  StatsQueryRangeOpts_asURLValues sr
  = fold_left (fun uv p => addNonEmpty uv (fst p) (snd p))
      [("timeout", [srTimeout sr]); ("start", [srStart sr]); ("end", [srEnd sr]);
       ("step", [srStep sr]); ("extra_filters", srExtraFilters sr)] ∅.
Proof. reflexivity. Qed.

Lemma IngestOpts_asURLValues_chain io :
  IngestOpts_asURLValues io
  = fold_left (fun uv p => addNonEmpty uv (fst p) (snd p))
      [("_time_field", [ioTimeField io]); ("_stream_fields", [ioStreamFields io]);
       ("_msg_field", [ioMessageField io])] ∅.
Proof. reflexivity. Qed.

Lemma urlValuesAdd_fresh key value uv :
  uv !! key = None ->
  urlValuesAdd key value uv !! key = Some [value] /\
  (forall k, k <> key -> urlValuesAdd key value uv !! k = uv !! k).
Proof.
  intros H. unfold urlValuesAdd. rewrite H, lookup_insert_eq. split; [done|].
  intros k Hk. by rewrite lookup_insert_ne by congruence.
Qed.

(* ================================================================== *)
(** ** Properties of the query arguments *)

(** [addNonEmpty] appends the non-empty values, in order, to the values
    the key already has; it sets no key when every value is empty, and
    leaves the other keys alone. *)
Theorem addNonEmpty_spec uv name values :
  addNonEmpty uv name values !! name
  = match filter (fun v => v <> EmptyString) values with
    | [] => uv !! name
    | vs => Some (default [] (uv !! name) ++ vs)
    end /\
  (forall k, k <> name -> addNonEmpty uv name values !! k = uv !! k).
Proof. exact (addNonEmpty_lookups uv name values). Qed.

(** [QueryOpts.asURLValues] sets "timeout", "start", "end", "limit" and
    "extra_filters" to the non-empty values of the matching options (no
    key for an empty option) and no other key. *)
Theorem QueryOpts_asURLValues_keys q :
  QueryOpts_asURLValues q !! "timeout" = nonEmptyValues [qoTimeout q] /\
  QueryOpts_asURLValues q !! "start" = nonEmptyValues [qoStart q] /\
  QueryOpts_asURLValues q !! "end" = nonEmptyValues [qoEnd q] /\
  QueryOpts_asURLValues q !! "limit" = nonEmptyValues [qoLimit q] /\
  QueryOpts_asURLValues q !! "extra_filters" = nonEmptyValues (qoExtraFilters q) /\
  (forall k, k ∉ ["timeout"; "start"; "end"; "limit"; "extra_filters"] ->
   QueryOpts_asURLValues q !! k = None).
Proof.
  rewrite QueryOpts_asURLValues_chain.
  split; [rewrite chain_present; reflexivity|].
  split; [rewrite chain_present; reflexivity|].
  split; [rewrite chain_present; reflexivity|].
  split; [rewrite chain_present; reflexivity|].
  split; [rewrite chain_present; simpl; by rewrite app_nil_r|].
  intros k Hk. by apply chain_absent.
Qed.

(** [FacetsOpts.asURLValues] sets "start", "end", "limit",
    "max_values_per_field", "max_value_len", "keep_const_fields" and
    "extra_filters" to the non-empty values of the matching options and no
    other key. *)
Theorem FacetsOpts_asURLValues_keys fo :
  FacetsOpts_asURLValues fo !! "start" = nonEmptyValues [foStart fo] /\
  FacetsOpts_asURLValues fo !! "end" = nonEmptyValues [foEnd fo] /\
  FacetsOpts_asURLValues fo !! "limit" = nonEmptyValues [foLimit fo] /\
  FacetsOpts_asURLValues fo !! "max_values_per_field" = nonEmptyValues [foMaxValuesPerField fo] /\
  FacetsOpts_asURLValues fo !! "max_value_len" = nonEmptyValues [foMaxValueLen fo] /\
  FacetsOpts_asURLValues fo !! "keep_const_fields" = nonEmptyValues [foKeepConstFields fo] /\
  FacetsOpts_asURLValues fo !! "extra_filters" = nonEmptyValues (foExtraFilters fo) /\
  (forall k, k ∉ ["start"; "end"; "limit"; "max_values_per_field"; "max_value_len";
                  "keep_const_fields"; "extra_filters"] ->
   FacetsOpts_asURLValues fo !! k = None).
Proof.
  rewrite FacetsOpts_asURLValues_chain.
  do 6 (split; [rewrite chain_present; reflexivity|]).
  split; [rewrite chain_present; simpl; by rewrite app_nil_r|].
  intros k Hk. by apply chain_absent.
Qed.

(** [StatsQueryOpts.asURLValues] sets "timeout", "time" and
    "extra_filters", and [StatsQueryRangeOpts.asURLValues] sets "timeout",
    "start", "end", "step" and "extra_filters", to the non-empty values of
    the matching options; neither sets another key. *)
Theorem StatsOpts_asURLValues_keys sq sr :
  (StatsQueryOpts_asURLValues sq !! "timeout" = nonEmptyValues [sqTimeout sq] /\
   StatsQueryOpts_asURLValues sq !! "time" = nonEmptyValues [sqTime sq] /\
   StatsQueryOpts_asURLValues sq !! "extra_filters" = nonEmptyValues (sqExtraFilters sq) /\
   (forall k, k ∉ ["timeout"; "time"; "extra_filters"] ->
    StatsQueryOpts_asURLValues sq !! k = None)) /\
  (StatsQueryRangeOpts_asURLValues sr !! "timeout" = nonEmptyValues [srTimeout sr] /\
   StatsQueryRangeOpts_asURLValues sr !! "start" = nonEmptyValues [srStart sr] /\
   StatsQueryRangeOpts_asURLValues sr !! "end" = nonEmptyValues [srEnd sr] /\
   StatsQueryRangeOpts_asURLValues sr !! "step" = nonEmptyValues [srStep sr] /\
   StatsQueryRangeOpts_asURLValues sr !! "extra_filters" = nonEmptyValues (srExtraFilters sr) /\
   (forall k, k ∉ ["timeout"; "start"; "end"; "step"; "extra_filters"] ->
    StatsQueryRangeOpts_asURLValues sr !! k = None)).
Proof.
  rewrite StatsQueryOpts_asURLValues_chain, StatsQueryRangeOpts_asURLValues_chain. split.
  - do 2 (split; [rewrite chain_present; reflexivity|]).
    split; [rewrite chain_present; simpl; by rewrite app_nil_r|].
    intros k Hk. by apply chain_absent.
  - do 4 (split; [rewrite chain_present; reflexivity|]).
    split; [rewrite chain_present; simpl; by rewrite app_nil_r|].
    intros k Hk. by apply chain_absent.
Qed.

(** [IngestOpts.asURLValues] sets "_time_field", "_stream_fields" and
    "_msg_field" to the time, stream and message field options when they
    are not empty, and no other key. *)
Theorem IngestOpts_asURLValues_keys io :
  IngestOpts_asURLValues io !! "_time_field" = nonEmptyValues [ioTimeField io] /\
  IngestOpts_asURLValues io !! "_stream_fields" = nonEmptyValues [ioStreamFields io] /\
  IngestOpts_asURLValues io !! "_msg_field" = nonEmptyValues [ioMessageField io] /\
  (forall k, k ∉ ["_time_field"; "_stream_fields"; "_msg_field"] ->
   IngestOpts_asURLValues io !! k = None).
Proof.
  rewrite IngestOpts_asURLValues_chain.
  do 3 (split; [rewrite chain_present; reflexivity|]).
  intros k Hk. by apply chain_absent.
Qed.

(** The forms [LogsQLQuery], [Facets], [StatsQueryRaw] and
    [StatsQueryRangeRaw] post carry exactly one "query" value, the query
    (also when it is empty), beside the options' arguments, unchanged. *)
Theorem query_forms_one_query query q fo sq sr :
  (LogsQLQuery_values query q !! "query" = Some [query] /\
   forall k, k <> "query" -> LogsQLQuery_values query q !! k = QueryOpts_asURLValues q !! k) /\
  (Facets_values query fo !! "query" = Some [query] /\
   forall k, k <> "query" -> Facets_values query fo !! k = FacetsOpts_asURLValues fo !! k) /\
  (StatsQueryRaw_values query sq !! "query" = Some [query] /\
   forall k, k <> "query" ->
   StatsQueryRaw_values query sq !! k = StatsQueryOpts_asURLValues sq !! k) /\
  (StatsQueryRangeRaw_values query sr !! "query" = Some [query] /\
   forall k, k <> "query" ->
   StatsQueryRangeRaw_values query sr !! k = StatsQueryRangeOpts_asURLValues sr !! k).
Proof.
  unfold LogsQLQuery_values, Facets_values, StatsQueryRaw_values, StatsQueryRangeRaw_values.
  split; [|split; [|split]]; apply urlValuesAdd_fresh.
  - rewrite QueryOpts_asURLValues_chain. apply chain_absent. vm_compute. set_solver.
  - rewrite FacetsOpts_asURLValues_chain. apply chain_absent. vm_compute. set_solver.
  - rewrite StatsQueryOpts_asURLValues_chain. apply chain_absent. vm_compute. set_solver.
  - rewrite StatsQueryRangeOpts_asURLValues_chain. apply chain_absent. vm_compute. set_solver.
Qed.

(** [NativeWrite] sends "version=v1" once beside the query options'
    arguments, unchanged. *)
Theorem NativeWrite_values_version q :
  NativeWrite_values q !! "version" = Some ["v1"] /\
  forall k, k <> "version" -> NativeWrite_values q !! k = QueryOpts_asURLValues q !! k.
Proof.
  unfold NativeWrite_values. apply urlValuesAdd_fresh.
  rewrite QueryOpts_asURLValues_chain. apply chain_absent. vm_compute. set_solver.
Qed.

(* ================================================================== *)
(** ** Lemmas on the traces of the OpenTelemetry handler *)

Lemma countEvents_pushedRows p msgFields u rows :
  (forall ts fields sfs, p (EvAddRow ts fields sfs) = false) ->
  countEvents p (map (pushedRow msgFields u) rows) = 0.
Proof.
  intros Hp. induction rows as [|[[ts f] k] rows IH]; [done|]. simpl.
  rewrite Hp. exact IH.
Qed.

Lemma countEvents_addRows msgFields u rows :
  countEvents isAddRow (map (pushedRow msgFields u) rows) = length rows.
Proof. induction rows as [|[[ts f] k] rows IH]; [done|]. simpl. by rewrite IH. Qed.

Section HandlerCases.
Variable Body : Type.
Variable GetCommonParams : Request Body -> CommonParams + Error.
Variable CanWriteData : option Error.
Variable uncompress : Body -> string -> nat -> LogsData + Error.

Local Abbreviation handle := (handleProtobuf Body GetCommonParams CanWriteData uncompress).

(** The five traces of [handleProtobuf], by the first stage that fails. *)
Lemma handleProtobuf_cases r :
  (exists err, GetCommonParams r = inr err /\
     handle r = ([EvRequestsProtobufTotalInc;
                  EvHTTPError (ErrWrap "cannot parse common params from request" err)], Done tt)) \/
  (exists cp err, GetCommonParams r = inl cp /\ CanWriteData = Some err /\
     handle r = ([EvRequestsProtobufTotalInc; EvCanWriteData; EvHTTPError err], Done tt)) \/
  (exists cp e, GetCommonParams r = inl cp /\ CanWriteData = None /\
     uncompress (ReqBody r) (ContentEncoding r) maxRequestSize = inr e /\
     handle r = ([EvRequestsProtobufTotalInc; EvCanWriteData; EvReadBody;
                  EvHTTPError (ErrWrap "cannot read OpenTelemetry protocol data" e)], Done tt)) \/
  (exists cp data e, GetCommonParams r = inl cp /\ CanWriteData = None /\
     uncompress (ReqBody r) (ContentEncoding r) maxRequestSize = inl data /\
     decodeResourceLogs 0 data = inr e /\
     handle r =
     ([EvRequestsProtobufTotalInc; EvCanWriteData; EvReadBody; EvNewLogMessageProcessor;
       EvErrorsTotalInc; EvMustClose;
       EvHTTPError (ErrWrap "cannot read OpenTelemetry protocol data"
                     (ErrWrap "cannot decode LogsData request" e))], Done tt)) \/
  (exists cp data rows, GetCommonParams r = inl cp /\ CanWriteData = None /\
     uncompress (ReqBody r) (ContentEncoding r) maxRequestSize = inl data /\
     decodeResourceLogs 0 data = inl rows /\
     handle r =
     ([EvRequestsProtobufTotalInc; EvCanWriteData; EvReadBody; EvNewLogMessageProcessor]
      ++ map (pushedRow (MsgFields cp) (bool_decide (length (StreamFields cp) = 0))) rows
      ++ [EvMustClose; EvRequestDurationUpdate], Done tt)).
Proof.
  destruct (GetCommonParams r) as [cp|err] eqn:Hcp.
  2:{ left. exists err. split; [done|]. unfold handleProtobuf. by rewrite Hcp. }
  destruct CanWriteData as [err|] eqn:Hw.
  { right; left. exists cp, err. do 2 (split; [done|]). unfold handleProtobuf. by rewrite Hcp. }
  destruct (uncompress (ReqBody r) (ContentEncoding r) maxRequestSize) as [data|e] eqn:Hu.
  2:{ right; right; left. exists cp, e. do 3 (split; [done|]).
      unfold handleProtobuf, ReadUncompressedData. by rewrite Hcp, Hu. }
  destruct (decodeResourceLogs 0 data) as [rows|e] eqn:Hd.
  - do 4 right. exists cp, data, rows. do 4 (split; [done|]).
    eapply handleProtobuf_trace_ok with (data := data); first [eassumption|reflexivity].
  - do 3 right; left. exists cp, data, e. do 4 (split; [done|]).
    eapply handleProtobuf_trace_decode_error with (data := data); first [eassumption|reflexivity].
Qed.

End HandlerCases.

(* ================================================================== *)
(** ** Properties of the OpenTelemetry handler's traces *)

(** Refutes a hypothesis that a stage of the handler went otherwise than
    the context says. *)
Ltac contra_stage :=
  let H := fresh in
  intros H; repeat match type of H with
  | ex _ => destruct H as [? H]
  end;
  repeat match goal with
  | H : _ /\ _ |- _ => destruct H
  end; congruence.

Section HandlerProperties.
Variable Body : Type.
Variable GetCommonParams : Request Body -> CommonParams + Error.
Variable CanWriteData : option Error.
Variable uncompress : Body -> string -> nat -> LogsData + Error.

Local Abbreviation handle := (handleProtobuf Body GetCommonParams CanWriteData uncompress).

(** [handleProtobuf] never panics. It increments the protobuf requests
    counter exactly once, first, and ends the request exactly once, last:
    with an HTTP error, or with the duration update, which it makes
    exactly when the common params parse, writes are allowed, the body is
    read and the payload decodes. *)
Theorem handleProtobuf_single_outcome r :
  exists body last,
    handle r = (EvRequestsProtobufTotalInc :: body ++ [last], Done tt) /\
    countEvents isRequestsProtobufTotalInc body = 0 /\
    isRequestEnd last = true /\ countEvents isRequestEnd body = 0 /\
    (last = EvRequestDurationUpdate <->
     exists cp data rows, GetCommonParams r = inl cp /\ CanWriteData = None /\
       uncompress (ReqBody r) (ContentEncoding r) maxRequestSize = inl data /\
       decodeResourceLogs 0 data = inl rows).
Proof.
  destruct (handleProtobuf_cases Body GetCommonParams CanWriteData uncompress r) as
    [(err & Hcp & ->)|[(cp & err & Hcp & Hw & ->)|[(cp & e & Hcp & Hw & Hu & ->)|
     [(cp & data & e & Hcp & Hw & Hu & Hd & ->)|(cp & data & rows & Hcp & Hw & Hu & Hd & ->)]]]].
  - exists [], (EvHTTPError (ErrWrap "cannot parse common params from request" err)).
    do 4 (split; [done|]). split; [discriminate|]. contra_stage.
  - exists [EvCanWriteData], (EvHTTPError err).
    do 4 (split; [done|]). split; [discriminate|]. contra_stage.
  - exists [EvCanWriteData; EvReadBody],
      (EvHTTPError (ErrWrap "cannot read OpenTelemetry protocol data" e)).
    do 4 (split; [done|]). split; [discriminate|]. contra_stage.
  - exists [EvCanWriteData; EvReadBody; EvNewLogMessageProcessor; EvErrorsTotalInc; EvMustClose],
      (EvHTTPError (ErrWrap "cannot read OpenTelemetry protocol data"
                     (ErrWrap "cannot decode LogsData request" e))).
    do 4 (split; [done|]). split; [discriminate|].
    contra_stage.
  - exists ([EvCanWriteData; EvReadBody; EvNewLogMessageProcessor]
            ++ map (pushedRow (MsgFields cp) (bool_decide (length (StreamFields cp) = 0))) rows
            ++ [EvMustClose]), EvRequestDurationUpdate.
    split; [simpl; by rewrite <- app_assoc|].
    rewrite !countEvents_app, !countEvents_pushedRows by done. simpl.
    do 3 (split; [done|]). split; [|done]. intros _. eauto 10.
Qed.

(** The errors counter is incremented at most once, and exactly when the
    payload fails to decode: not when the common params do not parse,
    writes are refused or the body cannot be read. *)
Theorem handleProtobuf_errors_total_on_decode_failure r :
  countEvents isErrorsTotalInc (fst (handle r)) <= 1 /\
  (countEvents isErrorsTotalInc (fst (handle r)) = 1 <->
   exists cp data e, GetCommonParams r = inl cp /\ CanWriteData = None /\
     uncompress (ReqBody r) (ContentEncoding r) maxRequestSize = inl data /\
     decodeResourceLogs 0 data = inr e).
Proof.
  destruct (handleProtobuf_cases Body GetCommonParams CanWriteData uncompress r) as
    [(err & Hcp & ->)|[(cp & err & Hcp & Hw & ->)|[(cp & e & Hcp & Hw & Hu & ->)|
     [(cp & data & e & Hcp & Hw & Hu & Hd & ->)|(cp & data & rows & Hcp & Hw & Hu & Hd & ->)]]]];
    simpl.
  - split; [lia|]. split; [discriminate|]. contra_stage.
  - split; [lia|]. split; [discriminate|]. contra_stage.
  - split; [lia|]. split; [discriminate|]. contra_stage.
  - split; [lia|]. split; [intros _; eauto 10|done].
  - rewrite !countEvents_app, !countEvents_pushedRows by done. simpl.
    split; [lia|]. split; [discriminate|].
    contra_stage.
Qed.

(** A log-message processor is opened exactly when the common params
    parse, writes are allowed and the body is read; it is then closed
    exactly once, and every row is added between the opening and the
    closing. Otherwise no processor is opened or closed and no row is
    added. *)
Theorem handleProtobuf_processor_bracket r :
  ((exists cp data, GetCommonParams r = inl cp /\ CanWriteData = None /\
      uncompress (ReqBody r) (ContentEncoding r) maxRequestSize = inl data) ->
   exists pre mid post,
     fst (handle r) = pre ++ EvNewLogMessageProcessor :: mid ++ EvMustClose :: post /\
     countEvents isAddRow (pre ++ post) = 0 /\
     countEvents isNewLogMessageProcessor (pre ++ mid ++ post) = 0 /\
     countEvents isMustClose (pre ++ mid ++ post) = 0) /\
  (~ (exists cp data, GetCommonParams r = inl cp /\ CanWriteData = None /\
        uncompress (ReqBody r) (ContentEncoding r) maxRequestSize = inl data) ->
   countEvents isNewLogMessageProcessor (fst (handle r)) = 0 /\
   countEvents isMustClose (fst (handle r)) = 0 /\
   countEvents isAddRow (fst (handle r)) = 0).
Proof.
  destruct (handleProtobuf_cases Body GetCommonParams CanWriteData uncompress r) as
    [(err & Hcp & ->)|[(cp & err & Hcp & Hw & ->)|[(cp & e & Hcp & Hw & Hu & ->)|
     [(cp & data & e & Hcp & Hw & Hu & Hd & ->)|(cp & data & rows & Hcp & Hw & Hu & Hd & ->)]]]];
    simpl.
  - split; [|done]. contra_stage.
  - split; [|done]. contra_stage.
  - split; [|done]. contra_stage.
  - split; [|intros H; exfalso; apply H; eauto].
    intros _. exists [EvRequestsProtobufTotalInc; EvCanWriteData; EvReadBody],
      [EvErrorsTotalInc],
      [EvHTTPError (ErrWrap "cannot read OpenTelemetry protocol data"
                     (ErrWrap "cannot decode LogsData request" e))].
    done.
  - split; [|intros H; exfalso; apply H; eauto].
    intros _. exists [EvRequestsProtobufTotalInc; EvCanWriteData; EvReadBody],
      (map (pushedRow (MsgFields cp) (bool_decide (length (StreamFields cp) = 0))) rows),
      [EvRequestDurationUpdate].
    split; [reflexivity|].
    rewrite !countEvents_app, !countEvents_pushedRows by done. done.
Qed.

End HandlerProperties.

(* ================================================================== *)
(** ** Lemmas on reading lines *)

Lemma noByte_cons c d s :
  noByte c (String d s) -> Ascii.eqb d c = false /\ noByte c s.
Proof.
  unfold noByte. simpl. destruct (Ascii.eqb d c); [lia|].
  destruct (IndexByte s c <? 0)%Z eqn:E; [apply Z.ltb_lt in E|apply Z.ltb_ge in E]; split; lia.
Qed.

Lemma string_app_String_ne (a b : string) c : (a ++ String c b)%string <> EmptyString.
Proof. destruct a; discriminate. Qed.

Lemma string_length_app_String (a b : string) c : String.length (a ++ String c b) <> 0.
Proof. destruct a; discriminate. Qed.

Lemma readLinesAux_String cur d s :
  readLinesAux cur (String d s)
  = if Ascii.eqb d "010"%char then
      let (ls, r) := readLinesAux EmptyString s in
      ((cur ++ String d EmptyString)%string :: ls, r)
    else readLinesAux (cur ++ String d EmptyString)%string s.
Proof. reflexivity. Qed.

Lemma readLinesAux_noByte cur l :
  noByte "010"%char l -> readLinesAux cur l = ([], (cur ++ l)%string).
Proof.
  revert cur. induction l as [|d l IH]; intros cur Hl.
  - simpl. by rewrite string_app_empty.
  - apply noByte_cons in Hl as [Hd Hl]. rewrite readLinesAux_String, Hd, IH by exact Hl.
    by rewrite string_app_assoc.
Qed.

Lemma readLinesAux_line cur l rest :
  noByte "010"%char l ->
  readLinesAux cur (l ++ newline ++ rest)%string
  = let (ls, r) := readLinesAux EmptyString rest in
    ((cur ++ l ++ newline)%string :: ls, r).
Proof.
  revert cur. induction l as [|d l IH]; intros cur Hl.
  - reflexivity.
  - apply noByte_cons in Hl as [Hd Hl].
    change ((String d l ++ newline ++ rest)%string) with (String d (l ++ newline ++ rest)%string).
    rewrite readLinesAux_String. rewrite Hd. rewrite IH by exact Hl.
    rewrite string_app_assoc. reflexivity.
Qed.

Lemma readLines_terminated ls :
  Forall (noByte "010"%char) ls ->
  readLines (joinLines (map (fun l => (l ++ newline)%string) ls)) = (map (fun l => (l ++ newline)%string) ls, EmptyString).
Proof.
  unfold readLines. induction 1 as [|l ls Hl Hls IH]; [reflexivity|].
  simpl. rewrite string_app_assoc, readLinesAux_line by exact Hl. rewrite IH. reflexivity.
Qed.

Lemma readLinesAux_unterminated cur s c :
  c <> "010"%char -> snd (readLinesAux cur (s ++ String c EmptyString)) <> EmptyString.
Proof.
  intros Hc. revert cur. induction s as [|d s IH]; intros cur.
  - simpl. assert (Ascii.eqb c "010"%char = false) as -> by (by apply Ascii.eqb_neq).
    simpl. apply string_app_String_ne.
  - change ((String d s ++ String c EmptyString)%string)
      with (String d (s ++ String c EmptyString)%string).
    rewrite readLinesAux_String.
    destruct (Ascii.eqb d "010"%char); [|apply IH].
    specialize (IH EmptyString).
    destruct (readLinesAux EmptyString (s ++ String c EmptyString)). exact IH.
Qed.

(* ================================================================== *)
(** ** Properties of the line format *)

Section QueryResponseProperties.
Variable JValue : Type.
Variable json_Unmarshal : string -> option (gmap string JValue).
Variable json_Marshal : gmap string JValue -> option string.

Local Abbreviation parse := (NewLogsQLQueryResponse JValue json_Unmarshal json_Marshal).

(** A non-empty response body whose last byte is not a newline is never
    accepted: [NewLogsQLQueryResponse] fails the test. *)
Theorem NewLogsQLQueryResponse_unterminated_fails s c :
  c <> "010"%char ->
  exists msg, NewLogsQLQueryResponse JValue json_Unmarshal json_Marshal
                (s ++ String c EmptyString)%string = Panic msg.
Proof.
  intros Hc. unfold NewLogsQLQueryResponse.
  destruct (Nat.eqb (String.length (s ++ String c EmptyString)) 0) eqn:E0.
  { apply Nat.eqb_eq in E0. destruct (s ++ String c EmptyString)%string eqn:E;
      [by apply string_app_String_ne in E|discriminate]. }
  pose proof (readLinesAux_unterminated EmptyString s c Hc) as Hr. unfold readLines.
  destruct (readLinesAux EmptyString (s ++ String c EmptyString)) as [lines r]. simpl in Hr.
  destruct (normalizeLines JValue json_Unmarshal json_Marshal lines); simpl; [|by eexists].
  destruct r as [|x r]; [done|]. simpl. by eexists.
Qed.

(** A body made of lines without newlines, each followed by a newline, is
    read back as exactly those lines: [NewLogsQLQueryResponse] returns
    what normalizing them returns, and never reports a trailing partial
    line. *)
Theorem NewLogsQLQueryResponse_terminated_lines ls :
  Forall (noByte "010"%char) ls ->
  parse (joinLines (map (fun l => (l ++ newline)%string) ls))
  = normalizeLines JValue json_Unmarshal json_Marshal (map (fun l => (l ++ newline)%string) ls).
Proof.
  intros Hls. unfold NewLogsQLQueryResponse.
  destruct (Nat.eqb (String.length (joinLines (map (fun l => (l ++ newline)%string) ls))) 0) eqn:E0.
  { destruct ls as [|l ls]; [reflexivity|]. exfalso. apply Nat.eqb_eq in E0.
    simpl in E0. rewrite string_app_assoc in E0. revert E0.
    apply string_length_app_String. }
  rewrite readLines_terminated by exact Hls.
  by destruct (normalizeLines JValue json_Unmarshal json_Marshal _).
Qed.

End QueryResponseProperties.

(** The body [JSONLineWrite] posts, read line by line, gives every record
    but the last as a newline-terminated line and the last record as the
    unterminated rest, when no record holds a newline. *)
Theorem JSONLineWrite_data_lines records :
  Forall (noByte "010"%char) records ->
  readLines (JSONLineWrite_data records)
  = (map (fun r => (r ++ newline)%string) (removelast records), List.last records EmptyString).
Proof.
  unfold readLines, JSONLineWrite_data.
  induction 1 as [|r rs Hr Hrs IH]; [reflexivity|].
  destruct rs as [|r' rs].
  - simpl. by rewrite readLinesAux_noByte by exact Hr.
  - change (String.concat newline (r :: r' :: rs))
      with (r ++ newline ++ String.concat newline (r' :: rs))%string.
    rewrite readLinesAux_line by exact Hr. rewrite IH. reflexivity.
Qed.

(* ================================================================== *)
(** ** Lemmas on [setDefaultFlags] *)

Lemma string_app_String d (a b : string) : (String d a ++ b)%string = String d (a ++ b).
Proof. reflexivity. Qed.

Lemma IndexByte_String d s c :
  IndexByte (String d s) c
  = if Ascii.eqb d c then 0%Z
    else let n := IndexByte s c in if (n <? 0)%Z then (-1)%Z else (n + 1)%Z.
Proof. reflexivity. Qed.

Lemma IndexByte_name_value name value :
  noByte "="%char name ->
  IndexByte (name ++ "=" ++ value) "=" = Z.of_nat (String.length name).
Proof.
  induction name as [|d name IH]; intros Hn.
  - reflexivity.
  - apply noByte_cons in Hn as [Hd Hn].
    rewrite string_app_String, IndexByte_String, Hd. rewrite IH by exact Hn. simpl.
    assert ((Z.of_nat (String.length name) <? 0)%Z = false) as -> by (apply Z.ltb_ge; lia).
    lia.
Qed.

Lemma IndexByte_app_eq a b :
  (0 <= IndexByte (a ++ String "=" b) "=")%Z.
Proof.
  induction a as [|d a IH].
  - simpl. lia.
  - rewrite string_app_String, IndexByte_String. destruct (Ascii.eqb d "="); [lia|]. simpl.
    destruct (IndexByte (a ++ String "=" b) "=" <? 0)%Z eqn:E;
      [apply Z.ltb_lt in E; lia|lia].
Qed.

Lemma sliceTo_prefix name rest :
  sliceTo (name ++ rest) (Z.of_nat (String.length name)) = name.
Proof.
  unfold sliceTo. rewrite Nat2Z.id.
  induction name as [|d name IH]; [by destruct rest|].
  exact (f_equal (String d) IH).
Qed.

(** The name of a flag [setDefaultFlags] adds for a default. *)
Lemma flagName_default name value :
  noByte "="%char name ->
  sliceTo (name ++ "=" ++ value) (IndexByte (name ++ "=" ++ value) "=") = name.
Proof. intros Hn. rewrite IndexByte_name_value by exact Hn. apply sliceTo_prefix. Qed.

Lemma prefix_single a d s :
  String.prefix (String a EmptyString) (String d s) = if ascii_dec a d then true else false.
Proof.
  change (String.prefix (String a EmptyString) (String d s))
    with (if ascii_dec a d then String.prefix EmptyString s else false).
  destruct (ascii_dec a d); [destruct s|]; reflexivity.
Qed.

Lemma validFlag_default name value :
  HasPrefix name "-" = true -> validFlag (name ++ "=" ++ value) = true.
Proof.
  intros Hp. unfold validFlag. apply andb_true_iff. split.
  - unfold HasPrefix in *. destruct name as [|d name]; [discriminate|].
    rewrite string_app_String, prefix_single. rewrite prefix_single in Hp. exact Hp.
  - apply Z.leb_le. apply IndexByte_app_eq.
Qed.

Lemma flagNamesOf_Done flags names :
  flagNamesOf flags = Done names ->
  Forall (fun f => validFlag f = true) flags /\
  names = map (fun f => sliceTo f (IndexByte f "=")) flags.
Proof.
  revert names. induction flags as [|f fs IH]; simpl; intros names H.
  - injection H as <-. done.
  - destruct (HasPrefix f "-") eqn:Hp; simpl in H; [|discriminate].
    destruct (IndexByte f "=" <? 0)%Z eqn:Hi; [discriminate|].
    destruct (flagNamesOf fs) as [ns|m]; simpl in H; [|discriminate].
    injection H as <-. destruct (IH ns eq_refl) as [Hv ->]. split; [|done].
    constructor; [|exact Hv]. unfold validFlag. rewrite Hp. simpl.
    apply Z.leb_le. apply Z.ltb_ge in Hi. lia.
Qed.

Lemma addDefaultFlags_Done flagNames defaultFlags acc out :
  addDefaultFlags flagNames defaultFlags acc = Done out ->
  Forall (fun nv => HasPrefix (fst nv) "-" = true) defaultFlags.
Proof.
  revert acc. induction defaultFlags as [|[name value] ds IH]; simpl; intros acc H.
  - constructor.
  - destruct (HasPrefix name "-") eqn:Hp; simpl in H; [|discriminate].
    constructor; [exact Hp|]. by eapply IH.
Qed.

(** The two loops of [setDefaultFlags] when it returns. *)
Lemma setDefaultFlags_Done flags defaultFlags out :
  setDefaultFlags flags defaultFlags = Done out ->
  Forall (fun f => validFlag f = true) flags /\
  Forall (fun nv => HasPrefix (fst nv) "-" = true) defaultFlags /\
  out = flags ++ map (fun nv => (fst nv ++ "=" ++ snd nv)%string)
                (filter (fun nv => fst nv ∉ map (fun f => sliceTo f (IndexByte f "=")) flags)
                   defaultFlags).
Proof.
  unfold setDefaultFlags. destruct (flagNamesOf flags) as [names|m] eqn:Hn; simpl; [|discriminate].
  intros H. apply flagNamesOf_Done in Hn as [Hv ->].
  pose proof (addDefaultFlags_Done _ _ _ _ H) as Hd.
  rewrite addDefaultFlags_spec in H by exact Hd. injection H as <-. done.
Qed.

Lemma filter_none {A} (P : A -> Prop) `{forall x, Decision (P x)} (l : list A) :
  (forall x, x ∈ l -> ~ P x) -> filter P l = [].
Proof.
  induction l as [|x l IH]; intros Hl; [done|]. rewrite filter_cons.
  rewrite decide_False by (apply Hl; by left). apply IH. intros y Hy. apply Hl. by right.
Qed.

Lemma NoDup_map_fst_filter {A B} (P : A * B -> Prop) `{forall x, Decision (P x)}
    (l : list (A * B)) :
  NoDup (map fst l) -> NoDup (map fst (filter P l)).
Proof.
  induction l as [|[a b] l IH]; intros Hl; [constructor|]. simpl in Hl.
  apply NoDup_cons in Hl as [Ha Hl]. rewrite filter_cons.
  destruct (decide (P (a, b))); simpl; [|by apply IH].
  apply NoDup_cons. split; [|by apply IH].
  intros Hin. apply Ha. apply list_elem_of_In in Hin. apply list_elem_of_In.
  apply in_map_iff in Hin as ([a' b'] & Ea & Hin). simpl in Ea. subst a'.
  apply list_elem_of_In, list_elem_of_filter in Hin as [_ Hin].
  apply list_elem_of_In in Hin. apply in_map_iff. by exists (a, b').
Qed.

Lemma names_of_defaults (ds : list (string * string)) :
  Forall (fun nv => noByte "="%char (fst nv)) ds ->
  map (fun f => sliceTo f (IndexByte f "=")) (map (fun nv => (fst nv ++ "=" ++ snd nv)%string) ds)
  = map fst ds.
Proof.
  induction 1 as [|[n v] ds Hn Hds IH]; [done|]. simpl in *.
  rewrite flagName_default by exact Hn. by rewrite IH.
Qed.

(* ================================================================== *)
(** ** Properties of [setDefaultFlags] *)

(** Every flag [setDefaultFlags] returns starts with '-' and contains
    '=': its result can be passed to it again without a panic. *)
Theorem setDefaultFlags_result_valid flags defaultFlags out :
  setDefaultFlags flags defaultFlags = Done out ->
  Forall (fun f => validFlag f = true) out.
Proof.
  intros H. apply setDefaultFlags_Done in H as (Hv & Hd & ->).
  apply Forall_app. split; [exact Hv|].
  apply Forall_forall. intros f Hf.
  apply list_elem_of_In, in_map_iff in Hf as ([n v] & <- & Hin).
  apply list_elem_of_In, list_elem_of_filter in Hin as [_ Hin].
  rewrite Forall_forall in Hd. apply validFlag_default. exact (Hd _ Hin).
Qed.

(** When no default flag name contains '=', applying [setDefaultFlags]
    again to its result with the same defaults, iterated in any order,
    changes nothing. *)
Theorem setDefaultFlags_idempotent flags defaultFlags defaultFlags' out :
  setDefaultFlags flags defaultFlags = Done out ->
  Forall (fun nv => noByte "="%char (fst nv)) defaultFlags ->
  defaultFlags ≡ₚ defaultFlags' ->
  setDefaultFlags out defaultFlags' = Done out.
Proof.
  intros H Hn Hp. pose proof H as Hout. apply setDefaultFlags_result_valid in Hout.
  apply setDefaultFlags_Done in H as (Hv & Hd & Heq).
  assert (Forall (fun nv => HasPrefix (fst nv) "-" = true) defaultFlags') as Hd'
    by (by rewrite <- Hp).
  unfold setDefaultFlags. rewrite flagNamesOf_valid by exact Hout. simpl.
  rewrite addDefaultFlags_spec by exact Hd'.
  rewrite filter_none; [by rewrite app_nil_r|].
  intros [n v] Hin Hnot. apply Hnot. clear Hnot. simpl.
  rewrite <- Hp in Hin.
  rewrite Heq, map_app. apply elem_of_app.
  destruct (decide (n ∈ map (fun f => sliceTo f (IndexByte f "=")) flags)) as [Hi|Hi];
    [by left|right].
  rewrite names_of_defaults.
  - apply list_elem_of_In, in_map_iff. exists (n, v). split; [done|].
    apply list_elem_of_In, list_elem_of_filter. by split.
  - apply Forall_forall. intros nv Hnv.
    apply list_elem_of_filter in Hnv as [_ Hnv]. rewrite Forall_forall in Hn. by apply Hn.
Qed.

(** The iteration order of the default-flags map does not matter beyond
    the order of the added flags: another order of the same defaults
    keeps the given flags first and adds a permutation of the same
    flags. *)
Theorem setDefaultFlags_order_independent flags defaultFlags defaultFlags' out :
  setDefaultFlags flags defaultFlags = Done out ->
  defaultFlags ≡ₚ defaultFlags' ->
  exists extra extra',
    out = flags ++ extra /\
    setDefaultFlags flags defaultFlags' = Done (flags ++ extra') /\
    extra ≡ₚ extra'.
Proof.
  intros H Hp. pose proof H as H0. apply setDefaultFlags_Done in H as (Hv & Hd & ->).
  assert (Forall (fun nv => HasPrefix (fst nv) "-" = true) defaultFlags') as Hd'
    by (by rewrite <- Hp).
  eexists _, _. split; [reflexivity|]. split.
  - unfold setDefaultFlags. rewrite flagNamesOf_valid by exact Hv. simpl.
    rewrite addDefaultFlags_spec by exact Hd'. reflexivity.
  - by rewrite Hp.
Qed.

(** When the given flags have distinct names and the defaults are a map
    (distinct names, none containing '='), the flags [setDefaultFlags]
    returns have distinct names, and these are the given names and the
    default names: no flag is set twice and no given flag is
    overridden. *)
Theorem setDefaultFlags_names flags defaultFlags out :
  setDefaultFlags flags defaultFlags = Done out ->
  NoDup (map (fun f => sliceTo f (IndexByte f "=")) flags) ->
  NoDup (map fst defaultFlags) ->
  Forall (fun nv => noByte "="%char (fst nv)) defaultFlags ->
  exists names,
    flagNamesOf out = Done names /\ NoDup names /\
    (forall n, n ∈ names <->
               n ∈ map (fun f => sliceTo f (IndexByte f "=")) flags \/ n ∈ map fst defaultFlags).
Proof.
  intros H Hnf Hnd Hn. pose proof H as Hout. apply setDefaultFlags_result_valid in Hout.
  apply setDefaultFlags_Done in H as (Hv & Hd & Heq).
  set (names := map (fun f => sliceTo f (IndexByte f "=")) flags) in *.
  set (F := filter (fun nv => fst nv ∉ names) defaultFlags).
  assert (Forall (fun nv => noByte "="%char (fst nv)) F) as HnF.
  { apply Forall_forall. intros nv Hnv. apply list_elem_of_filter in Hnv as [_ Hnv].
    rewrite Forall_forall in Hn. by apply Hn. }
  exists (names ++ map fst F). split; [|split].
  - rewrite flagNamesOf_valid by exact Hout. f_equal.
    rewrite Heq, map_app. f_equal. by apply names_of_defaults.
  - apply NoDup_app. split; [exact Hnf|]. split.
    + intros x Hx Hx'. apply list_elem_of_In, in_map_iff in Hx' as ([n v] & <- & Hin).
      apply list_elem_of_In, list_elem_of_filter in Hin as [Hni _]. by apply Hni.
    + by apply NoDup_map_fst_filter.
  - intros n. rewrite elem_of_app. split.
    + intros [Hi|Hi]; [by left|right].
      apply list_elem_of_In, in_map_iff in Hi as ([n' v] & <- & Hin).
      apply list_elem_of_In, list_elem_of_filter in Hin as [_ Hin].
      apply list_elem_of_In, in_map_iff. exists (n', v). split; [done|].
      by apply list_elem_of_In.
    + intros [Hi|Hi]; [by left|].
      destruct (decide (n ∈ names)) as [Hin|Hin]; [by left|right].
      apply list_elem_of_In, in_map_iff in Hi as ([n' v] & <- & Hi).
      apply list_elem_of_In, in_map_iff. exists (n', v). split; [done|].
      apply list_elem_of_In, list_elem_of_filter. split; [exact Hin|].
      by apply list_elem_of_In.
Qed.

(* ================================================================== *)
(** ** Lemmas on starting nodes *)

Lemma extractAll_Some extractOf instance res xs :
  extractAll extractOf instance res = Some xs ->
  Forall2 (fun re x => extractOf instance re = Some x) res xs.
Proof.
  revert xs. induction res as [|re res IH]; simpl; intros xs H.
  - injection H as <-. constructor.
  - destruct (extractOf instance re) as [x|] eqn:E; [|discriminate].
    destruct (extractAll extractOf instance res) as [ys|]; [|discriminate].
    injection H as <-. constructor; [exact E|]. by apply IH.
Qed.

Lemma default_single name value (names : list string) :
  filter (fun nv : string * string => fst nv ∉ names) [(name, value)]
  = if bool_decide (name ∈ names) then [] else [(name, value)].
Proof.
  rewrite filter_cons. simpl. case_bool_decide.
  - rewrite decide_False by (intros Hn; by apply Hn). done.
  - by rewrite decide_True by exact H.
Qed.

Section StartLemmas.
Variable extractOf : string -> ExtractRE -> option string.
Variable storageDataPathFor : string -> string.
Variable mapIter : list (string * string) -> list (string * string).
Hypothesis mapIter_perm : forall l, mapIter l ≡ₚ l.

Lemma mustStartVlnode_spec instance flags extra tr node rest :
  mustStartVlnode extractOf mapIter instance flags extra = (tr, Done (node, rest)) ->
  Forall (fun f => validFlag f = true) flags /\
  appFlags (nodeApp node)
  = flags ++ (if bool_decide ("-httpListenAddr" ∈ map (fun f => sliceTo f (IndexByte f "=")) flags)
              then [] else ["-httpListenAddr=127.0.0.1:0"]) /\
  extractAll extractOf instance (httpListenAddrRE :: extra) = Some (httpListenAddr node :: rest).
Proof.
  unfold mustStartVlnode. intros H.
  apply mbind_Done_inv in H as (t1 & flags' & t2 & H1 & H2 & ->).
  unfold liftOutcome in H1. injection H1 as <- Hsd.
  assert (mapIter [("-httpListenAddr", "127.0.0.1:0")] = [("-httpListenAddr", "127.0.0.1:0")])
    as Hm by (apply Permutation_length_1_inv; symmetry; apply mapIter_perm).
  rewrite Hm in Hsd. apply setDefaultFlags_Done in Hsd as (Hv & _ & ->).
  apply mbind_Done_inv in H2 as (t3 & [app extracts] & t4 & H3 & H4 & ->).
  unfold mustStartApp in H3.
  destruct (extractAll extractOf instance ([httpListenAddrRE] ++ extra)) as [xs|] eqn:Hx;
    simpl in H3; [|congruence].
  injection H3 as <- <- <-.
  destruct xs as [|addr xs]; simpl in H4; [discriminate|].
  injection H4 as <- <- <-. simpl.
  split; [exact Hv|]. split; [|exact Hx].
  rewrite default_single. by case_bool_decide.
Qed.

Lemma MustStartVlsingle_spec instance flags tr s :
  MustStartVlsingle extractOf storageDataPathFor mapIter instance flags = (tr, Done s) ->
  exists extra,
    appFlags (nodeApp (singleNode s))
    = flags ++ extra ++
      (if bool_decide ("-httpListenAddr" ∈ map (fun f => sliceTo f (IndexByte f "=")) flags)
       then [] else ["-httpListenAddr=127.0.0.1:0"]) /\
    extra ≡ₚ map (fun nv => (fst nv ++ "=" ++ snd nv)%string)
               (filter (fun nv => fst nv ∉ map (fun f => sliceTo f (IndexByte f "=")) flags)
                  [("-storageDataPath", storageDataPathFor instance); ("-retentionPeriod", "100y")]) /\
    extractOf instance logsStorageDataPathRE = Some (storageDataPath s).
Proof.
  unfold MustStartVlsingle. intros H.
  apply mbind_Done_inv in H as (t1 & flags1 & t2 & H1 & H2 & ->).
  unfold liftOutcome in H1. injection H1 as <- Hsd.
  apply setDefaultFlags_Done in Hsd as (Hv & Hd & ->).
  apply mbind_Done_inv in H2 as (t3 & [node extracts] & t4 & H3 & H4 & ->).
  apply mustStartVlnode_spec in H3 as (Hv1 & Hf & Hx).
  destruct extracts as [|p ps]; simpl in H4; [discriminate|].
  injection H4 as <- <-. simpl.
  apply extractAll_Some in Hx. inversion Hx as [|? ? ? ? _ Hx']; subst.
  inversion Hx' as [|? ? ? ? Hp _]; subst.
  set (names := map (fun f => sliceTo f (IndexByte f "=")) flags) in *.
  set (L := [("-storageDataPath", storageDataPathFor instance); ("-retentionPeriod", "100y")]) in *.
  set (F := filter (fun nv => fst nv ∉ names) (mapIter L)).
  exists (map (fun nv => (fst nv ++ "=" ++ snd nv)%string) F). split; [|split; [|exact Hp]].
  - rewrite Hf, <- app_assoc. f_equal. f_equal.
    assert (Forall (fun nv => fst nv ∈ ["-storageDataPath"; "-retentionPeriod"]) (mapIter L))
      as HL.
    { rewrite mapIter_perm. repeat constructor; set_solver. }
    assert (Forall (fun nv => noByte "="%char (fst nv)) F) as HnF.
    { apply Forall_forall. intros nv Hnv. apply list_elem_of_filter in Hnv as [_ Hnv].
      rewrite Forall_forall in HL. apply HL in Hnv.
      apply elem_of_cons in Hnv as [->|Hnv]; [by vm_compute|].
      apply list_elem_of_singleton in Hnv as ->. by vm_compute. }
    rewrite map_app, names_of_defaults by exact HnF.
    assert ("-httpListenAddr" ∉ map fst F) as Hh.
    { intros Hin. apply list_elem_of_In, in_map_iff in Hin as (nv & Hnv & Hin).
      apply list_elem_of_In, list_elem_of_filter in Hin as [_ Hin].
      rewrite Forall_forall in HL. apply HL in Hin. rewrite Hnv in Hin.
      apply elem_of_cons in Hin as [Hin|Hin]; [discriminate|].
      apply list_elem_of_singleton in Hin. discriminate. }
    rewrite (bool_decide_ext _ ("-httpListenAddr" ∈ names)); [done|].
    rewrite elem_of_app. split; [intros [Hi|Hi]; [exact Hi|by apply Hh in Hi]|by left].
  - unfold F. by rewrite mapIter_perm.
Qed.

End StartLemmas.

Lemma mfor_Vlsingle_Stop signalErr waitErr nodes :
  (forall a, signalErr a = None) -> (forall a, waitErr a = None) ->
  mfor (Vlsingle_Stop signalErr waitErr) nodes
  = (flat_map (fun a => [SignalInterrupt a; WaitProcess a])
       (map (fun s => nodeApp (singleNode s)) nodes), Done tt).
Proof.
  intros Hs Hw. induction nodes as [|n nodes IH]; [reflexivity|]. simpl.
  unfold Vlsingle_Stop at 1, appStop. rewrite Hs. simpl. rewrite Hw. simpl.
  rewrite IH. reflexivity.
Qed.

Lemma MustStartVlcluster_started extractOf storageDataPathFor mapIter instance storageFlags tr c :
  MustStartVlcluster extractOf storageDataPathFor mapIter instance storageFlags = (tr, Done c) ->
  map startedApp tr
  = map (fun s => nodeApp (singleNode s)) (storageNodes c)
    ++ [nodeApp (insertNode c); nodeApp (selectNode c)].
Proof.
  unfold MustStartVlcluster. intros H.
  apply mbind_Done_inv in H as (t1 & nodes & t2 & H1 & H2 & ->).
  apply startStorageNodes_Done in H1 as [Ht1 _].
  apply mbind_Done_inv in H2 as (t3 & [ins irest] & t4 & H3 & H4 & ->).
  apply mbind_Done_inv in H4 as (t5 & [sel srest] & t6 & H5 & H6 & ->).
  injection H6 as <- <-.
  apply mustStartVlnode_Done in H3 as (-> & _).
  apply mustStartVlnode_Done in H5 as (-> & _).
  simpl. rewrite !map_app, Ht1. done.
Qed.

(* ================================================================== *)
(** ** Properties of starting and stopping nodes *)

(** A started vlnode runs with the caller's flags followed by
    "-httpListenAddr=127.0.0.1:0" unless the caller set -httpListenAddr,
    and its address is the one the app logged. *)
Theorem mustStartVlnode_listen_addr extractOf mapIter instance flags extra tr node rest :
  (forall l, mapIter l ≡ₚ l) ->
  mustStartVlnode extractOf mapIter instance flags extra = (tr, Done (node, rest)) ->
  appFlags (nodeApp node)
  = flags ++ (if bool_decide ("-httpListenAddr" ∈ map (fun f => sliceTo f (IndexByte f "=")) flags)
              then [] else ["-httpListenAddr=127.0.0.1:0"]) /\
  extractOf instance httpListenAddrRE = Some (httpListenAddr node).
Proof.
  intros Hm H. apply (mustStartVlnode_spec extractOf mapIter Hm) in H as (_ & Hf & Hx).
  split; [exact Hf|]. apply extractAll_Some in Hx. by inversion Hx.
Qed.

(** A started vlsingle runs with the caller's flags, then
    "-storageDataPath=<a fresh path>" and "-retentionPeriod=100y" (in
    either order) for those the caller did not set, then
    "-httpListenAddr=127.0.0.1:0" unless the caller set it; its storage
    path is the one the app logged. *)
Theorem MustStartVlsingle_flags extractOf storageDataPathFor mapIter instance flags tr s :
  (forall l, mapIter l ≡ₚ l) ->
  MustStartVlsingle extractOf storageDataPathFor mapIter instance flags = (tr, Done s) ->
  exists extra,
    appFlags (nodeApp (singleNode s))
    = flags ++ extra ++
      (if bool_decide ("-httpListenAddr" ∈ map (fun f => sliceTo f (IndexByte f "=")) flags)
       then [] else ["-httpListenAddr=127.0.0.1:0"]) /\
    extra ≡ₚ map (fun nv => (fst nv ++ "=" ++ snd nv)%string)
               (filter (fun nv => fst nv ∉ map (fun f => sliceTo f (IndexByte f "=")) flags)
                  [("-storageDataPath", storageDataPathFor instance); ("-retentionPeriod", "100y")]) /\
    extractOf instance logsStorageDataPathRE = Some (storageDataPath s).
Proof. intros Hm. apply (MustStartVlsingle_spec extractOf storageDataPathFor mapIter Hm). Qed.

(** When no signal or wait fails, stopping a started cluster interrupts
    and then waits for every process it started, each once, in the order
    they were started. *)
Theorem Vlcluster_Stop_stops_started signalErr waitErr extractOf storageDataPathFor mapIter
    instance storageFlags tr c :
  MustStartVlcluster extractOf storageDataPathFor mapIter instance storageFlags = (tr, Done c) ->
  (forall a, signalErr a = None) -> (forall a, waitErr a = None) ->
  Vlcluster_Stop signalErr waitErr c
  = (flat_map (fun a => [SignalInterrupt a; WaitProcess a]) (map startedApp tr), Done tt).
Proof.
  intros H Hs Hw. rewrite (MustStartVlcluster_started _ _ _ _ _ _ _ H).
  unfold Vlcluster_Stop. rewrite mfor_Vlsingle_Stop by assumption. simpl.
  unfold appStop. rewrite !Hs. simpl. rewrite !Hw. simpl.
  rewrite flat_map_app. done.
Qed.

(* ------------------------------------------------------------------ *)
(** *** Line processors *)

Lemma map_fst_fmap {A B} (l : list (A * B)) : map fst l = l.*1.
Proof. induction l as [|x l IH]; simpl; [done|by rewrite IH]. Qed.

Lemma elem_of_map_fst_map_to_list (m : gmap nat lineProcessor) i :
  i ∈ map fst (map_to_list m) <-> is_Some (m !! i).
Proof.
  rewrite list_elem_of_In, in_map_iff. split.
  - intros [[j p] [Hj Hin]]. simpl in Hj. subst j.
    apply list_elem_of_In, elem_of_map_to_list in Hin. by exists p.
  - intros [p Hp]. exists (i, p). split; [done|].
    by apply list_elem_of_In, elem_of_map_to_list.
Qed.

Lemma rangeActiveLPs_spec line keys m calls m' :
  NoDup keys -> rangeActiveLPs line keys m = (calls, m') ->
  forall i,
    (i ∉ keys -> m' !! i = m !! i /\ filter (fun c => c.1 = i) calls = []) /\
    (i ∈ keys ->
       m' !! i = match m !! i with
                 | Some p => if (p : string -> bool) line then None else Some p
                 | None => None end /\
       filter (fun c => c.1 = i) calls = match m !! i with
                                         | Some _ => [(i, line)] | None => [] end).
Proof.
  revert m calls m'. induction keys as [|k keys IH]; intros m calls m' Hnd H i.
  - simpl in H. injection H as <- <-. split; [done|]. intros Hin. by apply elem_of_nil in Hin.
  - apply NoDup_cons in Hnd as [Hk Hnd]. simpl in H.
    destruct (m !! k) as [p|] eqn:Ek.
    + destruct (rangeActiveLPs line keys (if p line then delete k m else m)) as [calls1 m1] eqn:E.
      injection H as <- <-.
      destruct (decide (i = k)) as [->|Hik].
      * destruct (IH _ _ _ Hnd E k) as [Hout _]. destruct (Hout Hk) as [Hl Hf].
        split; [intros Hn; exfalso; apply Hn; apply elem_of_cons; by left|].
        intros _. rewrite Ek. split.
        -- etransitivity; [exact Hl|]. destruct (p line); [apply lookup_delete_eq|done].
        -- rewrite filter_cons, decide_True by done. f_equal. exact Hf.
      * assert (Hm : (if p line then delete k m else m) !! i = m !! i)
          by (destruct (p line); [apply lookup_delete_ne; congruence|done]).
        destruct (IH _ _ _ Hnd E i) as [Hout Hin].
        rewrite filter_cons, decide_False by (simpl; congruence).
        split.
        -- intros Hn. rewrite <- Hm. apply Hout. intros Hi. apply Hn. by apply elem_of_cons; right.
        -- intros Hn. apply elem_of_cons in Hn as [Hn|Hn]; [congruence|].
           rewrite <- Hm. by apply Hin.
    + destruct (decide (i = k)) as [->|Hik].
      * destruct (IH _ _ _ Hnd H k) as [Hout _]. destruct (Hout Hk) as [Hl Hf].
        split; [intros Hn; exfalso; apply Hn; apply elem_of_cons; by left|].
        intros _. rewrite Hl, Ek. done.
      * destruct (IH _ _ _ Hnd H i) as [Hout Hin]. split; [|].
        -- intros Hn. apply Hout. intros Hi. apply Hn. by apply elem_of_cons; right.
        -- intros Hn. apply elem_of_cons in Hn as [Hn|Hn]; [congruence|]. by apply Hin.
Qed.

Section ProcessOutputLemmas.
Variable iterOrder : nat -> list nat -> list nat.
(** [range] visits each key present when it starts exactly once. *)
Hypothesis iterOrder_perm : forall n ks, iterOrder n ks ≡ₚ ks.

Lemma processLines_calls lines lineNo m i :
  filter (fun c => c.1 = i) (processLines iterOrder lineNo lines m)
  = match m !! i with
    | Some p => map (fun l => (i, l)) (linesUntilDone p lines)
    | None => [] end.
Proof.
  revert lineNo m. induction lines as [|line lines IH]; intros lineNo m; simpl.
  - by destruct (m !! i).
  - destruct (rangeActiveLPs line (iterOrder lineNo (map fst (map_to_list m))) m)
      as [calls m'] eqn:E.
    assert (Hnd : NoDup (iterOrder lineNo (map fst (map_to_list m)))).
    { rewrite iterOrder_perm, map_fst_fmap. apply NoDup_fst_map_to_list. }
    destruct (rangeActiveLPs_spec _ _ _ _ _ Hnd E i) as [Hout Hin].
    rewrite filter_app, IH.
    destruct (m !! i) as [p|] eqn:Ei.
    + assert (Hk : i ∈ iterOrder lineNo (map fst (map_to_list m))).
      { rewrite iterOrder_perm, elem_of_map_fst_map_to_list. by exists p. }
      destruct (Hin Hk) as [Hl Hf]. rewrite Hf, Hl.
      destruct (p line); done.
    + assert (Hk : i ∉ iterOrder lineNo (map fst (map_to_list m))).
      { rewrite iterOrder_perm, elem_of_map_fst_map_to_list. intros [p Hp]. congruence. }
      destruct (Hout Hk) as [Hl Hf]. rewrite Hf, Hl. by rewrite ?Ei.
Qed.

Lemma processLines_single lines lineNo (lp : lineProcessor) :
  (forall l, lp l = false) ->
  processLines iterOrder lineNo lines {[0 := lp]} = map (fun l => (0, l)) lines.
Proof.
  intros Hlp. revert lineNo. induction lines as [|line lines IH]; intros lineNo; simpl; [done|].
  rewrite map_to_list_singleton. simpl.
  assert (Ho : iterOrder lineNo [0] = [0]).
  { apply Permutation_length_1_inv. symmetry. apply iterOrder_perm. }
  rewrite Ho. simpl. rewrite lookup_singleton_eq, Hlp. simpl. by rewrite IH.
Qed.

End ProcessOutputLemmas.

Lemma linesUntilDone_extractRE FindSubmatch lines :
  omap (fun l => snd (extractRE FindSubmatch l))
       (linesUntilDone (fun l => fst (extractRE FindSubmatch l)) lines)
  = match List.find (fun l => Nat.ltb 0 (length (FindSubmatch l))) lines with
    | Some l => [if Nat.ltb 1 (length (FindSubmatch l)) then nth 1 (FindSubmatch l) EmptyString
                 else EmptyString]
    | None => [] end.
Proof.
  induction lines as [|line lines IH]; simpl; [done|].
  unfold extractRE in IH |- *.
  destruct (Nat.ltb 0 (length (FindSubmatch line))); simpl; [done|exact IH].
Qed.

(** Each line processor given to [processOutput] is called on the scanned
    lines in order, up to and including the first line on which it returns
    true, and never again, whatever order the map is iterated in. *)
Theorem processOutput_calls iterOrder lines lps i lp :
  (forall n ks, iterOrder n ks ≡ₚ ks) -> lps !! i = Some lp ->
  filter (fun c => c.1 = i) (processOutput iterOrder lines lps)
  = map (fun l => (i, l)) (linesUntilDone lp lines).
Proof.
  intros Hperm Hi. unfold processOutput. rewrite (processLines_calls iterOrder Hperm).
  by rewrite lookup_map_seq_0, Hi.
Qed.

(** [processOutput] with the single processor [writeToStderr], as
    [mustStartApp] runs it on stdout, calls it on every scanned line, in
    order. *)
Theorem processOutput_writeToStderr iterOrder lines :
  (forall n ks, iterOrder n ks ≡ₚ ks) ->
  processOutput iterOrder lines [writeToStderr] = map (fun l => (0, l)) lines.
Proof.
  intros Hperm. unfold processOutput. simpl.
  rewrite insert_empty. by apply processLines_single.
Qed.

(** An [extractRE] processor run by [processOutput] offers a value at
    most once: none when no line matches its regexp, otherwise the first
    submatch (or the empty string when the regexp has no group) of the
    first matching line. *)
Theorem processOutput_extractRE_offers iterOrder FindSubmatch lines lps i :
  (forall n ks, iterOrder n ks ≡ₚ ks) ->
  lps !! i = Some (fun l => fst (extractRE FindSubmatch l)) ->
  omap (fun c => snd (extractRE FindSubmatch c.2))
       (filter (fun c => c.1 = i) (processOutput iterOrder lines lps))
  = match List.find (fun l => Nat.ltb 0 (length (FindSubmatch l))) lines with
    | Some l => [if Nat.ltb 1 (length (FindSubmatch l)) then nth 1 (FindSubmatch l) EmptyString
                 else EmptyString]
    | None => [] end.
Proof.
  intros Hperm Hi. unfold processOutput. rewrite (processLines_calls iterOrder Hperm).
  rewrite lookup_map_seq_0, Hi. rewrite <- linesUntilDone_extractRE.
  generalize (linesUntilDone (fun l => fst (extractRE FindSubmatch l)) lines).
  intros l. induction l as [|x l IH]; simpl; [done|].
  destruct (snd (extractRE FindSubmatch x)); simpl; [f_equal|]; exact IH.
Qed.

(* ------------------------------------------------------------------ *)
(** *** Collecting the extracted values *)

Lemma extractLoop_received n k sel rest nf ex :
  Forall (fun c => c.1 < n) sel ->
  extractLoop n (length sel + k) (sel ++ rest) nf ex
  = extractLoop n k rest (fold_left (fun m c => delete c.1 m) sel nf)
                         (fold_left (fun e c => <[c.1 := c.2]> e) sel ex).
Proof.
  revert nf ex. induction sel as [|[i v] sel IH]; intros nf ex Hf; simpl; [done|].
  apply Forall_cons in Hf as [Hi Hf]. simpl in Hi.
  rewrite (proj2 (Nat.eqb_neq i n)) by lia. by apply IH.
Qed.

Lemma fold_insert_length (sel : list (nat * string)) (ex : list string) :
  length (fold_left (fun e c => <[c.1 := c.2]> e) sel ex) = length ex.
Proof.
  revert ex. induction sel as [|c sel IH]; intros ex; simpl; [done|].
  by rewrite IH, length_insert.
Qed.

Lemma fold_insert_notin (sel : list (nat * string)) (ex : list string) j :
  j ∉ map fst sel -> fold_left (fun e c => <[c.1 := c.2]> e) sel ex !! j = ex !! j.
Proof.
  revert ex. induction sel as [|[i w] sel IH]; intros ex Hj; simpl; [done|].
  simpl in Hj. rewrite IH by (intros H; apply Hj, elem_of_cons; by right).
  apply list_lookup_insert_ne. intros ->. apply Hj, elem_of_cons. by left.
Qed.

Lemma fold_insert_in (sel : list (nat * string)) (ex : list string) j v :
  NoDup (map fst sel) -> (j, v) ∈ sel -> j < length ex ->
  fold_left (fun e c => <[c.1 := c.2]> e) sel ex !! j = Some v.
Proof.
  revert ex. induction sel as [|[i w] sel IH]; intros ex Hnd Hin Hj.
  - by apply elem_of_nil in Hin.
  - simpl in Hnd. apply NoDup_cons in Hnd as [Hi Hnd]. simpl.
    apply elem_of_cons in Hin as [Heq|Hin].
    + injection Heq as -> ->. rewrite fold_insert_notin by done.
      by apply list_lookup_insert_eq.
    + apply IH; [done|done|]. by rewrite length_insert.
Qed.

Lemma fold_delete_lookup (sel : list (nat * string)) (m : gmap nat string) j :
  fold_left (fun m c => delete c.1 m) sel m !! j
  = if bool_decide (j ∈ map fst sel) then None else m !! j.
Proof.
  revert m. induction sel as [|[i w] sel IH]; intros m; simpl.
  - done.
  - rewrite IH. destruct (decide (i = j)) as [<-|Hne].
    + rewrite lookup_delete_eq. case_bool_decide as H1; case_bool_decide as H2; try done.
      all: exfalso; apply H2, elem_of_cons; by left.
    + rewrite lookup_delete_ne by done.
      case_bool_decide as H1; case_bool_decide as H2; try done.
      * exfalso. apply H2, elem_of_cons. by right.
      * apply elem_of_cons in H2 as [H2|H2]; [congruence|contradiction].
Qed.

Lemma elem_of_imap_pair (l : list string) j v :
  (j, v) ∈ imap (fun i v => (i, v)) l <-> l !! j = Some v.
Proof.
  rewrite elem_of_lookup_imap. split.
  - intros (i & y & Heq & Hl). by injection Heq as -> ->.
  - intros Hl. by exists j, v.
Qed.

Lemma NoDup_fst_imap_pair (l : list string) : NoDup (map fst (imap (fun i v => (i, v)) l)).
Proof.
  rewrite map_fst_fmap. apply NoDup_alt. intros i j x Hi Hj.
  rewrite list_lookup_fmap, list_lookup_imap in Hi, Hj.
  destruct (l !! i), (l !! j); simpl in *; congruence.
Qed.

(** When the i-th extractor's result is received for every i, each once
    and in any order, before the timeout, [extractREMatches] returns the
    results ordered as the extractors. *)
Theorem extractREMatches_all_found reStrings values selected rest :
  length values = length reStrings ->
  selected ≡ₚ imap (fun i v => (i, v)) values ->
  extractREMatches reStrings (selected ++ rest) = Some (inl values).
Proof.
  intros Hlen Hsel. unfold extractREMatches. cbv zeta.
  assert (Hl : length selected = length reStrings)
    by (rewrite (Permutation_length Hsel), length_imap; done).
  assert (Hf : Forall (fun c => c.1 < length reStrings) selected).
  { rewrite Hsel. apply Forall_lookup. intros i x Hx.
    rewrite list_lookup_imap in Hx. destruct (values !! i) eqn:E; simpl in Hx; [|done].
    injection Hx as <-. simpl. apply lookup_lt_Some in E. lia. }
  pose proof (extractLoop_received (length reStrings) 0 selected rest
                (map_seq 0 reStrings : gmap nat string)
                (replicate (length reStrings) EmptyString) Hf) as E.
  rewrite Nat.add_0_r, Hl in E. rewrite E. cbn [extractLoop].
  f_equal. f_equal. apply list_eq. intros j.
  destruct (values !! j) as [v|] eqn:Ev.
  - apply fold_insert_in.
    + rewrite (Permutation_map fst Hsel). apply NoDup_fst_imap_pair.
    + rewrite Hsel. by apply elem_of_imap_pair.
    + rewrite length_replicate. apply lookup_lt_Some in Ev. lia.
  - apply lookup_ge_None_1 in Ev. apply lookup_ge_None_2.
    rewrite fold_insert_length, length_replicate. lia.
Qed.

(** When the timeout is selected after the results of fewer extractors
    than there are (each received once), [extractREMatches] fails and the
    error lists exactly the regexps of the extractors not heard from. *)
Theorem extractREMatches_timeout reStrings received v rest :
  NoDup (map fst received) ->
  Forall (fun c => c.1 < length reStrings) received ->
  length received < length reStrings ->
  exists notFound,
    extractREMatches reStrings (received ++ (length reStrings, v) :: rest) = Some (inr notFound) /\
    notFound ≡ₚ map snd (filter (fun c => c.1 ∉ map fst received)
                                (imap (fun i s => (i, s)) reStrings)).
Proof.
  intros Hnd Hf Hlt. unfold extractREMatches. cbv zeta.
  destruct (length reStrings - length received) as [|k] eqn:Ek; [lia|].
  pose proof (extractLoop_received (length reStrings) (S k) received
                ((length reStrings, v) :: rest) (map_seq 0 reStrings : gmap nat string)
                (replicate (length reStrings) EmptyString) Hf) as E.
  replace (length received + S k) with (length reStrings) in E by lia.
  rewrite E. cbn [extractLoop]. rewrite Nat.eqb_refl.
  eexists; split; [reflexivity|].
  apply Permutation_map. apply NoDup_Permutation.
  - apply NoDup_map_to_list.
  - apply NoDup_filter. apply (NoDup_fmap_1 fst). rewrite <- map_fst_fmap.
    apply NoDup_fst_imap_pair.
  - intros [j s]. rewrite elem_of_map_to_list, list_elem_of_filter, elem_of_imap_pair,
      fold_delete_lookup, lookup_map_seq_0. simpl.
    case_bool_decide; naive_solver.
Qed.

(* ================================================================== *)
(** ** Instances of the properties above *)

Lemma NewLogsQLQueryResponse_unterminated_fails_witness :
  "x"%char <> "010"%char /\
  exists msg, NewLogsQLQueryResponse string sampleUnmarshal sampleMarshal
                ("a" ++ String "x" EmptyString)%string = Panic msg.
Proof.
  split; [discriminate|].
  apply (NewLogsQLQueryResponse_unterminated_fails string sampleUnmarshal sampleMarshal "a" "x"%char).
  discriminate.
Defined.

Lemma NewLogsQLQueryResponse_terminated_lines_witness :
  Forall (noByte "010"%char) ["a"; "b"] /\
  NewLogsQLQueryResponse string sampleUnmarshal sampleMarshal
    (joinLines (map (fun l => (l ++ newline)%string) ["a"; "b"]))
  = normalizeLines string sampleUnmarshal sampleMarshal
      (map (fun l => (l ++ newline)%string) ["a"; "b"]).
Proof.
  assert (Forall (noByte "010"%char) ["a"; "b"]) as H
    by (repeat constructor; unfold noByte; vm_compute; reflexivity).
  split; [exact H|].
  exact (NewLogsQLQueryResponse_terminated_lines string sampleUnmarshal sampleMarshal _ H).
Defined.

Lemma JSONLineWrite_data_lines_witness :
  Forall (noByte "010"%char) ["r1"; "r2"; "r3"] /\
  readLines (JSONLineWrite_data ["r1"; "r2"; "r3"])
  = (map (fun r => (r ++ newline)%string) (removelast ["r1"; "r2"; "r3"]),
     List.last ["r1"; "r2"; "r3"] EmptyString).
Proof.
  assert (Forall (noByte "010"%char) ["r1"; "r2"; "r3"]) as H
    by (repeat constructor; unfold noByte; vm_compute; reflexivity).
  split; [exact H|]. exact (JSONLineWrite_data_lines _ H).
Defined.

Lemma setDefaultFlags_result_valid_witness :
  setDefaultFlags ["-a=1"] [("-b", "2")] = Done ["-a=1"; "-b=2"] /\
  Forall (fun f => validFlag f = true) ["-a=1"; "-b=2"].
Proof.
  assert (setDefaultFlags ["-a=1"] [("-b", "2")] = Done ["-a=1"; "-b=2"]) as H
    by (vm_compute; reflexivity).
  split; [exact H|]. exact (setDefaultFlags_result_valid _ _ _ H).
Defined.

Lemma setDefaultFlags_idempotent_witness :
  setDefaultFlags ["-a=1"] [("-b", "2"); ("-c", "3")] = Done ["-a=1"; "-b=2"; "-c=3"] /\
  Forall (fun nv => noByte "="%char (fst nv)) [("-b", "2"); ("-c", "3")] /\
  [("-b", "2"); ("-c", "3")] ≡ₚ [("-c", "3"); ("-b", "2")] /\
  setDefaultFlags ["-a=1"; "-b=2"; "-c=3"] [("-c", "3"); ("-b", "2")]
  = Done ["-a=1"; "-b=2"; "-c=3"].
Proof.
  assert (setDefaultFlags ["-a=1"] [("-b", "2"); ("-c", "3")] = Done ["-a=1"; "-b=2"; "-c=3"])
    as H by (vm_compute; reflexivity).
  assert (Forall (fun nv => noByte "="%char (fst nv)) [("-b", "2"); ("-c", "3")]) as Hn
    by (repeat constructor; unfold noByte; vm_compute; reflexivity).
  assert ([("-b", "2"); ("-c", "3")] ≡ₚ [("-c", "3"); ("-b", "2")]) as Hp by apply perm_swap.
  split; [exact H|]. split; [exact Hn|]. split; [exact Hp|].
  exact (setDefaultFlags_idempotent _ _ _ _ H Hn Hp).
Defined.

Lemma setDefaultFlags_order_independent_witness :
  setDefaultFlags ["-a=1"] [("-b", "2"); ("-c", "3")] = Done ["-a=1"; "-b=2"; "-c=3"] /\
  [("-b", "2"); ("-c", "3")] ≡ₚ [("-c", "3"); ("-b", "2")] /\
  exists extra extra',
    ["-a=1"; "-b=2"; "-c=3"] = ["-a=1"] ++ extra /\
    setDefaultFlags ["-a=1"] [("-c", "3"); ("-b", "2")] = Done (["-a=1"] ++ extra') /\
    extra ≡ₚ extra'.
Proof.
  assert (setDefaultFlags ["-a=1"] [("-b", "2"); ("-c", "3")] = Done ["-a=1"; "-b=2"; "-c=3"])
    as H by (vm_compute; reflexivity).
  assert ([("-b", "2"); ("-c", "3")] ≡ₚ [("-c", "3"); ("-b", "2")]) as Hp by apply perm_swap.
  split; [exact H|]. split; [exact Hp|].
  exact (setDefaultFlags_order_independent _ _ _ _ H Hp).
Defined.

Lemma setDefaultFlags_names_witness :
  setDefaultFlags ["-a=1"] [("-a", "0"); ("-b", "2")] = Done ["-a=1"; "-b=2"] /\
  exists names,
    flagNamesOf ["-a=1"; "-b=2"] = Done names /\ NoDup names /\
    (forall n, n ∈ names <->
               n ∈ map (fun f => sliceTo f (IndexByte f "=")) ["-a=1"] \/
               n ∈ map fst [("-a", "0"); ("-b", "2")]).
Proof.
  assert (setDefaultFlags ["-a=1"] [("-a", "0"); ("-b", "2")] = Done ["-a=1"; "-b=2"]) as H
    by (vm_compute; reflexivity).
  split; [exact H|]. apply (setDefaultFlags_names _ _ _ H).
  - apply (bool_decide_unpack _). vm_compute. exact I.
  - apply (bool_decide_unpack _). vm_compute. exact I.
  - repeat constructor; unfold noByte; vm_compute; reflexivity.
Defined.

Lemma mustStartVlnode_listen_addr_witness :
  exists tr node rest,
    mustStartVlnode sampleExtractOf (fun l => l) "vlsingle" ["-retentionPeriod=1d"] []
    = (tr, Done (node, rest)) /\
    appFlags (nodeApp node)
    = ["-retentionPeriod=1d"] ++
      (if bool_decide ("-httpListenAddr" ∈ map (fun f => sliceTo f (IndexByte f "="))
                                            ["-retentionPeriod=1d"])
       then [] else ["-httpListenAddr=127.0.0.1:0"]) /\
    sampleExtractOf "vlsingle" httpListenAddrRE = Some (httpListenAddr node).
Proof.
  destruct (mustStartVlnode sampleExtractOf (fun l => l) "vlsingle" ["-retentionPeriod=1d"] [])
    as [tr [[node rest]|msg]] eqn:E; [|vm_compute in E; discriminate].
  exists tr, node, rest. split; [reflexivity|].
  apply (mustStartVlnode_listen_addr sampleExtractOf (fun l => l) "vlsingle" ["-retentionPeriod=1d"]
           [] tr node rest);
    [intros l; reflexivity|exact E].
Defined.

Lemma MustStartVlsingle_flags_witness :
  exists tr s,
    MustStartVlsingle sampleExtractOf sampleStorageDataPathFor (fun l => l) "vlsingle" []
    = (tr, Done s) /\
    exists extra,
      appFlags (nodeApp (singleNode s))
      = [] ++ extra ++
        (if bool_decide ("-httpListenAddr" ∈ map (fun f => sliceTo f (IndexByte f "=")) [])
         then [] else ["-httpListenAddr=127.0.0.1:0"]) /\
      extra ≡ₚ map (fun nv => (fst nv ++ "=" ++ snd nv)%string)
                 (filter (fun nv => fst nv ∉ map (fun f => sliceTo f (IndexByte f "=")) [])
                    [("-storageDataPath", sampleStorageDataPathFor "vlsingle");
                     ("-retentionPeriod", "100y")]) /\
      sampleExtractOf "vlsingle" logsStorageDataPathRE = Some (storageDataPath s).
Proof.
  destruct (MustStartVlsingle sampleExtractOf sampleStorageDataPathFor (fun l => l) "vlsingle" [])
    as [tr [s|msg]] eqn:E; [|vm_compute in E; discriminate].
  exists tr, s. split; [reflexivity|].
  apply (MustStartVlsingle_flags sampleExtractOf sampleStorageDataPathFor (fun l => l)
           "vlsingle" [] tr s);
    [intros l; reflexivity|exact E].
Defined.

Lemma Vlcluster_Stop_stops_started_witness :
  exists tr c,
    sampleCluster = (tr, Done c) /\
    Vlcluster_Stop (fun _ => None) (fun _ => None) c
    = (flat_map (fun a => [SignalInterrupt a; WaitProcess a]) (map startedApp tr), Done tt).
Proof.
  destruct sampleCluster as [tr [c|msg]] eqn:E; [|vm_compute in E; discriminate].
  exists tr, c. split; [reflexivity|].
  apply (Vlcluster_Stop_stops_started (fun _ => None) (fun _ => None) sampleExtractOf
           sampleStorageDataPathFor (fun l => l) "vlcluster" [] tr c E);
    intros a; reflexivity.
Defined.

Lemma processOutput_calls_witness :
  filter (fun c => c.1 = 1)
    (processOutput (fun _ ks => ks) ["a"; "b"; "c"] [writeToStderr; fun l => String.eqb l "b"])
  = map (fun l => (1, l)) (linesUntilDone (fun l => String.eqb l "b") ["a"; "b"; "c"]).
Proof.
  apply (processOutput_calls (fun _ ks => ks) ["a"; "b"; "c"]
           [writeToStderr; fun l => String.eqb l "b"] 1 (fun l => String.eqb l "b"));
    [intros n ks; reflexivity|reflexivity].
Defined.

Lemma processOutput_writeToStderr_witness :
  processOutput (fun _ ks => ks) ["a"; "b"] [writeToStderr] = map (fun l => (0, l)) ["a"; "b"].
Proof.
  apply (processOutput_writeToStderr (fun _ ks => ks) ["a"; "b"]).
  intros n ks; reflexivity.
Defined.

Lemma processOutput_extractRE_offers_witness :
  omap (fun c => snd (extractRE sampleFindSubmatch c.2))
       (filter (fun c => c.1 = 0)
          (processOutput (fun _ ks => ks) ["start"; "listening on 1"; "listening on 1"]
             [fun l => fst (extractRE sampleFindSubmatch l)]))
  = match List.find (fun l => Nat.ltb 0 (length (sampleFindSubmatch l)))
            ["start"; "listening on 1"; "listening on 1"] with
    | Some l => [if Nat.ltb 1 (length (sampleFindSubmatch l))
                 then nth 1 (sampleFindSubmatch l) EmptyString else EmptyString]
    | None => [] end.
Proof.
  apply (processOutput_extractRE_offers (fun _ ks => ks) sampleFindSubmatch
           ["start"; "listening on 1"; "listening on 1"]
           [fun l => fst (extractRE sampleFindSubmatch l)] 0);
    [intros n ks; reflexivity|reflexivity].
Defined.

Lemma extractREMatches_all_found_witness :
  extractREMatches ["re0"; "re1"] ([(1, "v1"); (0, "v0")] ++ []) = Some (inl ["v0"; "v1"]).
Proof.
  apply (extractREMatches_all_found ["re0"; "re1"] ["v0"; "v1"]).
  - reflexivity.
  - simpl. apply perm_swap.
Defined.

Lemma extractREMatches_timeout_witness :
  exists notFound,
    extractREMatches ["re0"; "re1"] ([(1, "v1")] ++ (length ["re0"; "re1"], EmptyString) :: [])
    = Some (inr notFound) /\
    notFound ≡ₚ map snd (filter (fun c => c.1 ∉ map fst [(1, "v1")])
                                (imap (fun i s => (i, s)) ["re0"; "re1"])).
Proof.
  apply (extractREMatches_timeout ["re0"; "re1"] [(1, "v1")]).
  - apply (bool_decide_unpack _). vm_compute. exact I.
  - repeat constructor.
  - simpl. lia.
Defined.
